(** * Image Filter Application (src/app.py): model and verified properties

    The application is a Tkinter shell around Pillow.  The development has
    four layers:

    - [Float64]: the binary64 arithmetic that [display_image_on_canvas] uses
      to compute the preview size (Python [int / int], [int * float],
      [min], [int(...)]);
    - [Py]: Python exceptions and the state-and-exception monad in which the
      handlers are written (a raise keeps the mutations made so far);
    - the class [Pillow]: the imaging library as an interface, every call of
      which may raise;
    - the class [ImageFilterApp] of the source: session state, the handlers,
      and the Tk event loop that dispatches button presses. *)

From Stdlib Require Import ZArith QArith Qround Qabs Qpower Qreduction.
From Stdlib Require Import Lia Lqa Bool List String Ascii.
From Stdlib Require Floats.
Import ListNotations.

Set Implicit Arguments.

(* ================================================================== *)
(** ** Binary64 arithmetic *)
(* ================================================================== *)

Module Float64.

Open Scope Q_scope.

(** A Python float is modelled by the rational it denotes.  [fl] rounds a
    rational to 53 significant bits, ties to even: the IEEE-754 binary64
    rounding for every value whose magnitude lies in the normal range, which
    covers all quotients and products of widget and image sizes. *)

Definition pow2 (e : Z) : Q := 2 ^ e.

(** floor of the binary logarithm of a positive rational *)
Definition ilog2 (x : Q) : Z :=
  let e0 := (Z.log2 (Qnum x) - Z.log2 (Zpos (Qden x)))%Z in
  if Qle_bool (pow2 e0) x then e0 else (e0 - 1)%Z.

(** nearest integer, ties to even *)
Definition rne (x : Q) : Z :=
  let f := Qfloor x in
  match Qcompare (x - inject_Z f) (1 # 2) with
  | Lt => f
  | Gt => (f + 1)%Z
  | Eq => if Z.even f then f else (f + 1)%Z
  end.

Definition fl_pos (x : Q) : Q :=
  let e := ilog2 x in
  inject_Z (rne (x * pow2 (52 - e))) * pow2 (e - 52).

Definition fl (x : Q) : Q :=
  let x := Qred x in
  match Qcompare x 0 with
  | Eq => 0
  | Gt => Qred (fl_pos x)
  | Lt => Qred (- fl_pos (- x))
  end.

(** [int(x)]: truncation toward zero *)
Definition trunc (x : Q) : Z :=
  if Qle_bool 0 x then Qfloor x else Qceiling x.

(** unit roundoff of binary64, and its value *)
Definition u53 : Q := pow2 (-53).

Definition u : Q := 1 # 9007199254740992.

(** The machine's binary64 numbers, read as rationals, to compare [fl]
    with the hardware operations on sample values. *)
Definition of_binary64 (x : PrimFloat.float) : option Q :=
  match FloatOps.Prim2SF x with
  | SpecFloat.S754_zero _ => Some 0
  | SpecFloat.S754_finite s m e =>
      Some (Qred ((if s then -1 else 1) * inject_Z (Zpos m) * pow2 e))
  | _ => None
  end.

Definition binary64_of_Z (n : Z) : PrimFloat.float :=
  PrimFloat.of_uint63 (Uint63.of_Z n).

End Float64.

(* ================================================================== *)
(** ** Python: exceptions, results, the handler monad *)
(* ================================================================== *)

Module Py.

Open Scope string_scope.

(** An exception is its class name and its message ([str(e)]). *)
Inductive exn : Type := Exn (cls msg : string).

Definition str (e : exn) : string := let 'Exn _ m := e in m.

Definition ZeroDivisionError : exn := Exn "ZeroDivisionError" "division by zero".
Definition AttributeError (m : string) : exn := Exn "AttributeError" m.

Inductive result (A : Type) : Type :=
| Ok (a : A)
| Raise (e : exn).
Arguments Ok {A} a.
Arguments Raise {A} e.

(** A Python object: its identity and its content. *)
Record obj (A : Type) : Type := { oid : nat; val : A }.

(** Truthiness of a [str] and of an attribute that holds [None] or an
    object without [__bool__]/[__len__]. *)
Definition truthy_str (s : string) : bool :=
  match s with EmptyString => false | _ => true end.

Definition truthy {A : Type} (o : option A) : bool :=
  match o with Some _ => true | None => false end.

(** [os.path.basename]: what follows the last slash. *)
Fixpoint basename_from (acc s : string) : string :=
  match s with
  | EmptyString => acc
  | String c r => if Ascii.eqb c "/" then basename_from r r else basename_from acc r
  end.

Definition basename (p : string) : string := basename_from p p.

Fixpoint has_slash (s : string) : bool :=
  match s with
  | EmptyString => false
  | String c r => Ascii.eqb c "/" || has_slash r
  end.

(** Sequencing of fallible pure steps. *)
Definition and_then {A B} (r : result A) (k : A -> result B) : result B :=
  match r with Ok a => k a | Raise e => Raise e end.

(** *** Floats of the preview computation *)

Definition float : Type := Q.

(** [a / b] on ints *)
Definition truediv (a b : Z) : result float :=
  if (b =? 0)%Z then Raise ZeroDivisionError
  else Ok (Float64.fl (inject_Z a / inject_Z b)).

(** [n * x] with [n] an int and [x] a float *)
Definition mul_int_float (n : Z) (x : float) : float :=
  Float64.fl (Float64.fl (inject_Z n) * x)%Q.

(** [min(a, b, c)]: the first least argument *)
Definition min3 (a b c : float) : float :=
  let m := if Qle_bool a b then a else b in
  if Qle_bool m c then m else c.

Definition int (x : float) : Z := Float64.trunc x.

(** The literal [1.2] *)
Definition float_1_2 : float := Float64.fl (12 # 10).

(** *** The monad of handlers over a state [S] *)

Definition M (S A : Type) : Type := S -> result A * S.

Definition ret {S A} (a : A) : M S A := fun s => (Ok a, s).

Definition bind {S A B} (m : M S A) (k : A -> M S B) : M S B :=
  fun s => match m s with
           | (Ok a, s') => k a s'
           | (Raise e, s') => (Raise e, s')
           end.

Definition get {S} : M S S := fun s => (Ok s, s).

Definition modify {S} (f : S -> S) : M S unit := fun s => (Ok tt, f s).

Definition lift {S A} (r : result A) : M S A := fun s => (r, s).

(** [try: body  except Exception as e: handler(e)] *)
Definition try_except {S} (body : M S unit) (handler : exn -> M S unit) : M S unit :=
  fun s => match body s with
           | (Ok tt, s') => (Ok tt, s')
           | (Raise e, s') => handler e s'
           end.

End Py.

Import Py.

Declare Scope py_scope.
Delimit Scope py_scope with py.
Notation "x <- c ;; k" := (bind c (fun x => k))
  (at level 61, c at next level, right associativity) : py_scope.
Notation "c ;; k" := (bind c (fun _ => k))
  (at level 61, right associativity) : py_scope.

(* ================================================================== *)
(** ** The imaging library *)
(* ================================================================== *)

(** The kernels of [ImageFilter] that the application uses. *)
Inductive kernel : Type := BLUR | SHARPEN | EDGE_ENHANCE_MORE | FIND_EDGES.

Inductive resampling : Type := LANCZOS.

(** Pillow and ImageTk as the application sees them.  [image] is the
    content of a [PIL.Image.Image] (mode, size, pixel data); every call is
    fallible, as each sits inside a [try] of the source.  [Image_open] is
    given the file system.  [img_save] returns its outcome together with
    the file system it leaves: [Image.save] opens the target for writing
    before the encoder runs, so a save that raises may have emptied a file
    that was there. *)
Class Pillow : Type := {
  image : Type;
  enhancer : Type;
  photo : Type;
  fs : Type;
  img_mode : image -> string;
  img_size : image -> Z * Z;
  img_data : image -> list (list Z);
  Image_open : fs -> string -> result image;
  img_copy : image -> result image;
  img_convert : string -> image -> result image;
  img_filter : kernel -> image -> result image;
  img_quantize : Z -> image -> result image;
  ImageEnhance_Color : image -> result enhancer;
  enhance : enhancer -> float -> result image;
  img_resize : Z * Z -> resampling -> image -> result image;
  img_save : image -> string -> fs -> result unit * fs;
  ImageTk_PhotoImage : image -> result photo
}.

(* ================================================================== *)
(** ** Tk widgets *)
(* ================================================================== *)

Inductive tk_state : Type := NORMAL | DISABLED.

(** The bound methods that buttons carry as [command]. *)
Inductive command : Type :=
| cmd_upload_image | cmd_save_image | cmd_reset_image
| cmd_apply_black_white | cmd_apply_blur | cmd_apply_sharpen
| cmd_apply_cartoon | cmd_apply_edge_detection.

Record Button : Type := {
  text : string;
  btn_command : command;
  state : tk_state
}.

(** [tk.Button(..., text=t, command=c)]: [state] defaults to [tk.NORMAL]. *)
Definition tk_Button (t : string) (c : command) (st : option tk_state) : Button :=
  {| text := t; btn_command := c;
     state := match st with Some x => x | None => NORMAL end |}.

(** [btn.config(state=st)] *)
Definition config_state (st : tk_state) (b : Button) : Button :=
  {| text := text b; btn_command := btn_command b; state := st |}.

Record Label : Type := { label_text : string; label_fg : string }.

Inductive dialog : Type :=
| showerror (title msg : string)
| showinfo (title msg : string)
| showwarning (title msg : string).

Definition newline : string := String (ascii_of_nat 10) EmptyString.

(* ================================================================== *)
(** ** class ImageFilterApp *)
(* ================================================================== *)

Section ImageFilterApp.

Context {P : Pillow}.

Open Scope string_scope.
Open Scope Z_scope.

(** An image item of the canvas, anchored at its centre. *)
Record canvas_item : Type := {
  item_x : Z;
  item_y : Z;
  item_image : obj photo
}.

(** The attributes of [self], the widgets that [create_widgets] builds, and
    the surroundings a handler can touch: the modal dialogs shown so far
    (latest first), the tracebacks Tk printed for exceptions that escaped a
    callback, the file system, and the next fresh object identity.
    [filter_buttons] is [None] while the attribute does not exist.
    [canvas_winfo] is what [winfo_width()], [winfo_height()] return. *)
Record App : Type := {
  original_image : option (obj image);
  processed_image : option (obj image);
  display_image : option (obj photo);
  upload_btn : Button;
  save_btn : Button;
  reset_btn : Button;
  filter_buttons : option (list Button);
  canvas_winfo : Z * Z;
  canvas_items : list canvas_item;
  status_label : Label;
  dialogs : list dialog;
  tracebacks : list exn;
  disk : fs;
  next_oid : nat
}.

Definition set_original_image (v : option (obj image)) (s : App) : App :=
  {| original_image := v; processed_image := processed_image s;
     display_image := display_image s; upload_btn := upload_btn s;
     save_btn := save_btn s; reset_btn := reset_btn s;
     filter_buttons := filter_buttons s; canvas_winfo := canvas_winfo s;
     canvas_items := canvas_items s; status_label := status_label s;
     dialogs := dialogs s; tracebacks := tracebacks s; disk := disk s;
     next_oid := next_oid s |}.

Definition set_processed_image (v : option (obj image)) (s : App) : App :=
  {| original_image := original_image s; processed_image := v;
     display_image := display_image s; upload_btn := upload_btn s;
     save_btn := save_btn s; reset_btn := reset_btn s;
     filter_buttons := filter_buttons s; canvas_winfo := canvas_winfo s;
     canvas_items := canvas_items s; status_label := status_label s;
     dialogs := dialogs s; tracebacks := tracebacks s; disk := disk s;
     next_oid := next_oid s |}.

Definition set_display_image (v : option (obj photo)) (s : App) : App :=
  {| original_image := original_image s; processed_image := processed_image s;
     display_image := v; upload_btn := upload_btn s;
     save_btn := save_btn s; reset_btn := reset_btn s;
     filter_buttons := filter_buttons s; canvas_winfo := canvas_winfo s;
     canvas_items := canvas_items s; status_label := status_label s;
     dialogs := dialogs s; tracebacks := tracebacks s; disk := disk s;
     next_oid := next_oid s |}.

Definition set_save_btn (v : Button) (s : App) : App :=
  {| original_image := original_image s; processed_image := processed_image s;
     display_image := display_image s; upload_btn := upload_btn s;
     save_btn := v; reset_btn := reset_btn s;
     filter_buttons := filter_buttons s; canvas_winfo := canvas_winfo s;
     canvas_items := canvas_items s; status_label := status_label s;
     dialogs := dialogs s; tracebacks := tracebacks s; disk := disk s;
     next_oid := next_oid s |}.

Definition set_filter_buttons (v : option (list Button)) (s : App) : App :=
  {| original_image := original_image s; processed_image := processed_image s;
     display_image := display_image s; upload_btn := upload_btn s;
     save_btn := save_btn s; reset_btn := reset_btn s;
     filter_buttons := v; canvas_winfo := canvas_winfo s;
     canvas_items := canvas_items s; status_label := status_label s;
     dialogs := dialogs s; tracebacks := tracebacks s; disk := disk s;
     next_oid := next_oid s |}.

Definition set_canvas_winfo (v : Z * Z) (s : App) : App :=
  {| original_image := original_image s; processed_image := processed_image s;
     display_image := display_image s; upload_btn := upload_btn s;
     save_btn := save_btn s; reset_btn := reset_btn s;
     filter_buttons := filter_buttons s; canvas_winfo := v;
     canvas_items := canvas_items s; status_label := status_label s;
     dialogs := dialogs s; tracebacks := tracebacks s; disk := disk s;
     next_oid := next_oid s |}.

Definition set_canvas_items (v : list canvas_item) (s : App) : App :=
  {| original_image := original_image s; processed_image := processed_image s;
     display_image := display_image s; upload_btn := upload_btn s;
     save_btn := save_btn s; reset_btn := reset_btn s;
     filter_buttons := filter_buttons s; canvas_winfo := canvas_winfo s;
     canvas_items := v; status_label := status_label s;
     dialogs := dialogs s; tracebacks := tracebacks s; disk := disk s;
     next_oid := next_oid s |}.

Definition set_status_label (v : Label) (s : App) : App :=
  {| original_image := original_image s; processed_image := processed_image s;
     display_image := display_image s; upload_btn := upload_btn s;
     save_btn := save_btn s; reset_btn := reset_btn s;
     filter_buttons := filter_buttons s; canvas_winfo := canvas_winfo s;
     canvas_items := canvas_items s; status_label := v;
     dialogs := dialogs s; tracebacks := tracebacks s; disk := disk s;
     next_oid := next_oid s |}.

Definition set_dialogs (v : list dialog) (s : App) : App :=
  {| original_image := original_image s; processed_image := processed_image s;
     display_image := display_image s; upload_btn := upload_btn s;
     save_btn := save_btn s; reset_btn := reset_btn s;
     filter_buttons := filter_buttons s; canvas_winfo := canvas_winfo s;
     canvas_items := canvas_items s; status_label := status_label s;
     dialogs := v; tracebacks := tracebacks s; disk := disk s;
     next_oid := next_oid s |}.

Definition set_tracebacks (v : list exn) (s : App) : App :=
  {| original_image := original_image s; processed_image := processed_image s;
     display_image := display_image s; upload_btn := upload_btn s;
     save_btn := save_btn s; reset_btn := reset_btn s;
     filter_buttons := filter_buttons s; canvas_winfo := canvas_winfo s;
     canvas_items := canvas_items s; status_label := status_label s;
     dialogs := dialogs s; tracebacks := v; disk := disk s;
     next_oid := next_oid s |}.

Definition set_disk (v : fs) (s : App) : App :=
  {| original_image := original_image s; processed_image := processed_image s;
     display_image := display_image s; upload_btn := upload_btn s;
     save_btn := save_btn s; reset_btn := reset_btn s;
     filter_buttons := filter_buttons s; canvas_winfo := canvas_winfo s;
     canvas_items := canvas_items s; status_label := status_label s;
     dialogs := dialogs s; tracebacks := tracebacks s; disk := v;
     next_oid := next_oid s |}.

Definition set_next_oid (v : nat) (s : App) : App :=
  {| original_image := original_image s; processed_image := processed_image s;
     display_image := display_image s; upload_btn := upload_btn s;
     save_btn := save_btn s; reset_btn := reset_btn s;
     filter_buttons := filter_buttons s; canvas_winfo := canvas_winfo s;
     canvas_items := canvas_items s; status_label := status_label s;
     dialogs := dialogs s; tracebacks := tracebacks s; disk := disk s;
     next_oid := v |}.

Local Open Scope py_scope.

(** A library call that returns a new object: the object gets a fresh
    identity. *)
Definition new {A : Type} (r : result A) : M App (obj A) :=
  fun s => match r with
           | Ok v => (Ok {| oid := next_oid s; val := v |},
                      set_next_oid (S (next_oid s)) s)
           | Raise e => (Raise e, s)
           end.

(** Reading [self.original_image] / [self.processed_image] where the code
    goes on to use the object. *)
Definition self_original_image : M App (obj image) :=
  fun s => match original_image s with
           | Some o => (Ok o, s)
           | None => (Raise (AttributeError "'NoneType' object has no attribute"), s)
           end.

Definition self_processed_image : M App (obj image) :=
  fun s => match processed_image s with
           | Some o => (Ok o, s)
           | None => (Raise (AttributeError "'NoneType' object has no attribute"), s)
           end.

Definition self_filter_buttons : M App (list Button) :=
  fun s => match filter_buttons s with
           | Some l => (Ok l, s)
           | None => (Raise (AttributeError "'ImageFilterApp' object has no attribute 'filter_buttons'"), s)
           end.

Definition messagebox (d : dialog) : M App unit :=
  modify (fun s => set_dialogs (d :: dialogs s) s).

Definition status_label_config (t fg : string) : M App unit :=
  modify (set_status_label {| label_text := t; label_fg := fg |}).

Definition self_display_image : M App (obj photo) :=
  fun s => match display_image s with
           | Some o => (Ok o, s)
           | None => (Raise (AttributeError "'NoneType' object has no attribute"), s)
           end.

(** *** __init__ and create_widgets *)

Definition filters : list (string * command) :=
  [ ("Black & White", cmd_apply_black_white);
    ("Blur", cmd_apply_blur);
    ("Sharpen", cmd_apply_sharpen);
    ("Cartoon", cmd_apply_cartoon);
    ("Edge Detection", cmd_apply_edge_detection) ].

(** One round of the loop over [filters]: the button is created disabled
    and appended to [self.filter_buttons], which is created on first use. *)
Definition add_filter_button (fb : option (list Button)) (f : string * command)
  : option (list Button) :=
  let btn := tk_Button (fst f) (snd f) (Some DISABLED) in
  let l := match fb with None => [] | Some l => l end in
  Some (l ++ [btn])%list.

(** The session right after [ImageFilterApp(root)], on file system [d].
    Before the first layout pass Tk reports a 1x1 canvas. *)
Definition init (d : fs) : App :=
  {| original_image := None;
     processed_image := None;
     display_image := None;
     upload_btn := tk_Button "Upload Image" cmd_upload_image None;
     save_btn := tk_Button "Save Image" cmd_save_image (Some DISABLED);
     reset_btn := tk_Button "Reset" cmd_reset_image None;
     filter_buttons := fold_left add_filter_button filters None;
     canvas_winfo := (1, 1);
     canvas_items := [];
     status_label := {| label_text := "Please upload an image to get started";
                        label_fg := "gray" |};
     dialogs := [];
     tracebacks := [];
     disk := d;
     next_oid := O |}.

(** *** display_image_on_canvas *)

(** Canvas dimensions, with the defaults used while the canvas is not yet
    rendered. *)
Definition canvas_dims (winfo : Z * Z) : Z * Z :=
  let '(canvas_width, canvas_height) := winfo in
  (if canvas_width <=? 1 then 800 else canvas_width,
   if canvas_height <=? 1 then 500 else canvas_height).

Definition scale_factor (canvas size : Z * Z) : result float :=
  let '(canvas_width, canvas_height) := canvas in
  let '(img_width, img_height) := size in
  and_then (truediv (canvas_width - 20) img_width) (fun scale_w =>
  and_then (truediv (canvas_height - 20) img_height) (fun scale_h =>
  Ok (min3 scale_w scale_h 1%Q))).

(** [(new_width, new_height)] *)
Definition preview_size (canvas size : Z * Z) : result (Z * Z) :=
  let '(img_width, img_height) := size in
  and_then (scale_factor canvas size) (fun scale =>
  Ok (int (mul_int_float img_width scale), int (mul_int_float img_height scale))).

Definition display_image_on_canvas (image : obj image) : M App unit :=
  s <- get ;;
  let canvas := canvas_dims (canvas_winfo s) in
  new_size <- lift (preview_size canvas (img_size (val image))) ;;
  display_img <- new (img_resize new_size LANCZOS (val image)) ;;
  ph <- new (ImageTk_PhotoImage (val display_img)) ;;
  modify (set_display_image (Some ph)) ;;
  modify (set_canvas_items []) ;;
  d <- self_display_image ;;
  modify (fun s => set_canvas_items
    (canvas_items s ++ [ {| item_x := fst canvas / 2; item_y := snd canvas / 2;
                            item_image := d |} ])%list s).

(** *** upload_image *)

Definition enable (bs : list Button) : list Button := map (config_state NORMAL) bs.

(** The body of the [try]; [file_path] is what the open dialog returned. *)
Definition upload_image_try (file_path : string) : M App unit :=
  s <- get ;;
  img <- new (Image_open (disk s) file_path) ;;
  modify (set_original_image (Some img)) ;;
  o <- self_original_image ;;
  cp <- new (img_copy (val o)) ;;
  modify (set_processed_image (Some cp)) ;;
  bs <- self_filter_buttons ;;
  modify (set_filter_buttons (Some (enable bs))) ;;
  modify (fun s => set_save_btn (config_state NORMAL (save_btn s)) s) ;;
  o <- self_original_image ;;
  display_image_on_canvas o ;;
  let filename := basename file_path in
  status_label_config ("Image loaded: " ++ filename) "green".

Definition upload_image (file_path : string) : M App unit :=
  if truthy_str file_path then
    try_except (upload_image_try file_path)
      (fun e => messagebox (showerror "Error" ("Failed to load image: " ++ str e)))
  else ret tt.

(** *** The filters *)

Definition black_white_expr : M App (obj image) :=
  o <- self_original_image ;;
  g <- new (img_convert "L" (val o)) ;;
  new (img_convert "RGB" (val g)).

Definition blur_expr : M App (obj image) :=
  o <- self_original_image ;;
  new (img_filter BLUR (val o)).

Definition sharpen_expr : M App (obj image) :=
  o <- self_original_image ;;
  new (img_filter SHARPEN (val o)).

Definition cartoon_expr : M App (obj image) :=
  o <- self_original_image ;;
  img <- new (img_copy (val o)) ;;
  img <- (if negb (String.eqb (img_mode (val img)) "RGB")
          then new (img_convert "RGB" (val img)) else ret img) ;;
  q <- new (img_quantize 64 (val img)) ;;
  img <- new (img_convert "RGB" (val q)) ;;
  img <- new (img_filter EDGE_ENHANCE_MORE (val img)) ;;
  enhancer <- new (ImageEnhance_Color (val img)) ;;
  img <- new (enhance (val enhancer) float_1_2) ;;
  ret img.

Definition edge_detection_expr : M App (obj image) :=
  o <- self_original_image ;;
  gray <- new (img_convert "L" (val o)) ;;
  edges <- new (img_filter FIND_EDGES (val gray)) ;;
  new (img_convert "RGB" (val edges)).

(** The five handlers share one shape: evaluate the right-hand side, assign
    it to [self.processed_image], display it, update the status line; all
    inside one [try]. *)
Definition filter_try (expr : M App (obj image)) (name : string) : M App unit :=
  img <- expr ;;
  modify (set_processed_image (Some img)) ;;
  p <- self_processed_image ;;
  display_image_on_canvas p ;;
  status_label_config ("Filter applied: " ++ name) "blue".

Definition filter_handler (expr : M App (obj image)) (name : string) : M App unit :=
  s <- get ;;
  if truthy (original_image s) then
    try_except (filter_try expr name)
      (fun e => messagebox (showerror "Error" ("Failed to apply filter: " ++ str e)))
  else ret tt.

Definition apply_black_white : M App unit := filter_handler black_white_expr "Black & White".
Definition apply_blur : M App unit := filter_handler blur_expr "Blur".
Definition apply_sharpen : M App unit := filter_handler sharpen_expr "Sharpen".
Definition apply_cartoon : M App unit := filter_handler cartoon_expr "Cartoon".
Definition apply_edge_detection : M App unit :=
  filter_handler edge_detection_expr "Edge Detection".

(** *** save_image and reset_image *)

(** [p.save(file_path)]: whatever the outcome, the files are the ones the
    library leaves. *)
Definition Image_save (p : obj image) (file_path : string) : M App unit :=
  fun s => let '(r, d) := img_save (val p) file_path (disk s) in (r, set_disk d s).

(** [file_path] is what the save dialog returned; the dialog is shown only
    when there is a processed image. *)
Definition save_image (file_path : string) : M App unit :=
  s <- get ;;
  if truthy (processed_image s) then
    if truthy_str file_path then
      try_except
        (p <- self_processed_image ;;
         Image_save p file_path ;;
         messagebox (showinfo "Success"
           ("Image saved successfully to:" ++ newline ++ file_path)) ;;
         status_label_config ("Image saved: " ++ basename file_path) "green")
        (fun e => messagebox (showerror "Error" ("Failed to save image: " ++ str e)))
    else ret tt
  else messagebox (showwarning "Warning" "No processed image to save!").

(** No [try] here: an exception leaves the handler. *)
Definition reset_image : M App unit :=
  s <- get ;;
  if truthy (original_image s) then
    o <- self_original_image ;;
    cp <- new (img_copy (val o)) ;;
    modify (set_processed_image (Some cp)) ;;
    o <- self_original_image ;;
    display_image_on_canvas o ;;
    status_label_config "Image reset to original" "orange"
  else ret tt.

(** *** The event loop *)

Inductive filter_id : Type := BlackWhite | Blur | Sharpen | Cartoon | EdgeDetection.

Inductive control : Type :=
| UploadBtn | SaveBtn | ResetBtn | FilterBtn (f : filter_id).

Definition filter_index (f : filter_id) : nat :=
  match f with
  | BlackWhite => 0 | Blur => 1 | Sharpen => 2 | Cartoon => 3 | EdgeDetection => 4
  end%nat.

Definition widget (c : control) (s : App) : option Button :=
  match c with
  | UploadBtn => Some (upload_btn s)
  | SaveBtn => Some (save_btn s)
  | ResetBtn => Some (reset_btn s)
  | FilterBtn f =>
      match filter_buttons s with
      | Some l => nth_error l (filter_index f)
      | None => None
      end
  end.

(** What Tk runs for a [command]; [answer] is the path a file dialog
    returns if the handler opens one (the empty string on cancel). *)
Definition run_command (c : command) (answer : string) : M App unit :=
  match c with
  | cmd_upload_image => upload_image answer
  | cmd_save_image => save_image answer
  | cmd_reset_image => reset_image
  | cmd_apply_black_white => apply_black_white
  | cmd_apply_blur => apply_blur
  | cmd_apply_sharpen => apply_sharpen
  | cmd_apply_cartoon => apply_cartoon
  | cmd_apply_edge_detection => apply_edge_detection
  end.

Definition apply_filter (f : filter_id) : M App unit :=
  match f with
  | BlackWhite => apply_black_white
  | Blur => apply_blur
  | Sharpen => apply_sharpen
  | Cartoon => apply_cartoon
  | EdgeDetection => apply_edge_detection
  end.

Definition filter_expr (f : filter_id) : M App (obj image) :=
  match f with
  | BlackWhite => black_white_expr
  | Blur => blur_expr
  | Sharpen => sharpen_expr
  | Cartoon => cartoon_expr
  | EdgeDetection => edge_detection_expr
  end.

Inductive event : Type :=
| Press (c : control) (answer : string)
| Configure (width height : Z).

(** One event of [mainloop]: a press on a disabled button does nothing; a
    callback's escaped exception is reported by Tk and the loop goes on. *)
Definition step (ev : event) (s : App) : App :=
  match ev with
  | Configure w h => set_canvas_winfo (w, h) s
  | Press c answer =>
      match widget c s with
      | Some b =>
          match state b with
          | DISABLED => s
          | NORMAL =>
              match run_command (btn_command b) answer s with
              | (Ok _, s') => s'
              | (Raise e, s') => set_tracebacks (e :: tracebacks s') s'
              end
          end
      | None => s
      end
  end.

Definition mainloop (evs : list event) (s : App) : App :=
  fold_left (fun s ev => step ev s) evs s.

(** *** What the handlers compute, as functions of the original's content *)

(** The right-hand sides above with the object identities dropped. *)
Definition black_white_of (i : image) : result image :=
  and_then (img_convert "L" i) (fun g => img_convert "RGB" g).

Definition blur_of (i : image) : result image := img_filter BLUR i.

Definition sharpen_of (i : image) : result image := img_filter SHARPEN i.

Definition cartoon_of (i : image) : result image :=
  and_then (img_copy i) (fun img =>
  and_then (if negb (String.eqb (img_mode img) "RGB")
            then img_convert "RGB" img else Ok img) (fun img =>
  and_then (img_quantize 64 img) (fun q =>
  and_then (img_convert "RGB" q) (fun img =>
  and_then (img_filter EDGE_ENHANCE_MORE img) (fun img =>
  and_then (ImageEnhance_Color img) (fun enhancer =>
  enhance enhancer float_1_2)))))).

Definition edge_detection_of (i : image) : result image :=
  and_then (img_convert "L" i) (fun gray =>
  and_then (img_filter FIND_EDGES gray) (fun edges =>
  img_convert "RGB" edges)).

Definition filter_pipeline (f : filter_id) : image -> result image :=
  match f with
  | BlackWhite => black_white_of
  | Blur => blur_of
  | Sharpen => sharpen_of
  | Cartoon => cartoon_of
  | EdgeDetection => edge_detection_of
  end.

Definition filter_name (f : filter_id) : string :=
  match f with
  | BlackWhite => "Black & White"
  | Blur => "Blur"
  | Sharpen => "Sharpen"
  | Cartoon => "Cartoon"
  | EdgeDetection => "Edge Detection"
  end.

(** The cartoon pipeline in the words of the specification: (a) convert to
    RGB, (b) quantize to 64 colours, (c) convert back to RGB, (d) the strong
    edge enhancement, (e) saturation times 1.2. *)
Definition cartoon_spec (i : image) : result image :=
  and_then (img_convert "RGB" i) (fun a =>
  and_then (img_quantize 64 a) (fun b =>
  and_then (img_convert "RGB" b) (fun c =>
  and_then (img_filter EDGE_ENHANCE_MORE c) (fun d =>
  and_then (ImageEnhance_Color d) (fun en =>
  enhance en float_1_2))))).

(** *** Predicates on sessions *)

Definition reachable (s : App) : Prop :=
  exists (d : fs) (evs : list event), s = mainloop evs (init d).


(** The processed image is a copy of the original or one filter applied to
    it. *)
Definition derived (s : App) : Prop :=
  match original_image s, processed_image s with
  | None, None => True
  | Some o, Some p =>
      img_copy (val o) = Ok (val p) \/
      exists f, filter_pipeline f (val o) = Ok (val p)
  | _, _ => False
  end.

(** Every object the session holds was allocated before [next_oid]. *)
Definition allocated (s : App) : Prop :=
  (forall o, original_image s = Some o -> oid o < next_oid s)%nat /\
  (forall o, processed_image s = Some o -> oid o < next_oid s)%nat.

Definition control_state (c : control) (s : App) : option tk_state :=
  option_map state (widget c s).

Definition gray_pixel (p : list Z) : Prop := exists v, p = [v; v; v].

(** [display_image_on_canvas] and the allocator may change the preview, the
    canvas and [next_oid]; [same_session s s'] says nothing else differs. *)
Definition same_session (s s' : App) : Prop :=
  original_image s' = original_image s /\
  processed_image s' = processed_image s /\
  upload_btn s' = upload_btn s /\
  save_btn s' = save_btn s /\
  reset_btn s' = reset_btn s /\
  filter_buttons s' = filter_buttons s /\
  canvas_winfo s' = canvas_winfo s /\
  status_label s' = status_label s /\
  dialogs s' = dialogs s /\
  tracebacks s' = tracebacks s /\
  disk s' = disk s /\
  (next_oid s <= next_oid s')%nat.

(** The controls and the original image are as they were. *)
Definition same_controls (s s' : App) : Prop :=
  original_image s' = original_image s /\
  upload_btn s' = upload_btn s /\
  save_btn s' = save_btn s /\
  reset_btn s' = reset_btn s /\
  filter_buttons s' = filter_buttons s.

(** *** What the application relies on from Pillow

    Facts of the library, stated on the interface; each theorem below names
    the ones it uses. *)

(** [copy()] returns an image with the same mode, size and pixels. *)
Definition copy_is_identical : Prop :=
  forall i j : image, img_copy i = Ok j -> j = i.

(** [convert(mode)] to the mode the image already has is [copy()]. *)
Definition convert_to_own_mode_is_copy : Prop :=
  forall (m : string) (i : image), img_mode i = m -> img_convert m i = img_copy i.

Definition convert_sets_mode : Prop :=
  forall (m : string) (i j : image), img_convert m i = Ok j -> img_mode j = m.

Definition filter_keeps_mode : Prop :=
  forall (k : kernel) (i j : image), img_filter k i = Ok j -> img_mode j = img_mode i.

(** Expanding a single-band image to RGB repeats the band. *)
Definition L_to_RGB_is_gray : Prop :=
  forall i j : image,
    img_mode i = "L" -> img_convert "RGB" i = Ok j -> Forall gray_pixel (img_data j).

(** None of the calls the filters make changes the size. *)
Definition sizes_kept : Prop :=
  (forall i j, img_copy i = Ok j -> img_size j = img_size i) /\
  (forall m i j, img_convert m i = Ok j -> img_size j = img_size i) /\
  (forall k i j, img_filter k i = Ok j -> img_size j = img_size i) /\
  (forall n i j, img_quantize n i = Ok j -> img_size j = img_size i) /\
  (forall i en x j, ImageEnhance_Color i = Ok en -> enhance en x = Ok j ->
                    img_size j = img_size i).

(** The upload and reset buttons are enabled and the five filter buttons
    exist. *)
Definition controls_built (s : App) : Prop :=
  state (upload_btn s) = NORMAL /\
  state (reset_btn s) = NORMAL /\
  exists bs, filter_buttons s = Some bs /\ List.length bs = 5%nat.

(** *** The wiring of the controls *)

(** The handler that [create_widgets] passes as [command] for each
    control. *)
Definition command_of (c : control) : command :=
  match c with
  | UploadBtn => cmd_upload_image
  | SaveBtn => cmd_save_image
  | ResetBtn => cmd_reset_image
  | FilterBtn BlackWhite => cmd_apply_black_white
  | FilterBtn Blur => cmd_apply_blur
  | FilterBtn Sharpen => cmd_apply_sharpen
  | FilterBtn Cartoon => cmd_apply_cartoon
  | FilterBtn EdgeDetection => cmd_apply_edge_detection
  end.

(** Every control exists and carries its own handler. *)
Definition wired (s : App) : Prop :=
  forall c, exists b, widget c s = Some b /\ btn_command b = command_of c.

Definition is_warning (d : dialog) : bool :=
  match d with showwarning _ _ => true | _ => false end.

(** The save control is enabled only when there is a processed image, and
    no warning dialog has been shown. *)
Definition save_gated (s : App) : Prop :=
  (state (save_btn s) = NORMAL -> processed_image s <> None) /\
  forallb (fun d => negb (is_warning d)) (dialogs s) = true.

(** The item that shows photo [d] in the middle of the canvas of [s]. *)
Definition centred (s : App) (d : obj photo) : canvas_item :=
  {| item_x := fst (canvas_dims (canvas_winfo s)) / 2;
     item_y := snd (canvas_dims (canvas_winfo s)) / 2;
     item_image := d |}.

(** What a callback [c] may do to a session: [r] is its result and final
    state.  Controls are kept or enabled; only [upload_image] replaces the
    original; only [save_image] writes files; a processed image is never
    taken away; the save control changes only once there is a processed
    image; the one warning dialog comes from [save_image] without a
    processed image; only [reset_image] can let an exception out. *)
Definition effect (c : command) (s : App) (r : result unit * App) : Prop :=
  let s' := snd r in
  (forall ctl, match widget ctl s with
               | None => widget ctl s' = None
               | Some b => widget ctl s' = Some b \/
                           widget ctl s' = Some (config_state NORMAL b)
               end) /\
  (c <> cmd_upload_image -> original_image s' = original_image s) /\
  (c <> cmd_save_image -> disk s' = disk s) /\
  (processed_image s <> None -> processed_image s' <> None) /\
  (save_btn s' = save_btn s \/ processed_image s' <> None) /\
  (dialogs s' = dialogs s \/
   exists d, dialogs s' = d :: dialogs s /\
     (is_warning d = true -> c = cmd_save_image /\ processed_image s = None)) /\
  (c <> cmd_reset_image -> fst r = Ok tt) /\
  tracebacks s' = tracebacks s /\
  canvas_winfo s' = canvas_winfo s.

(** The session after a callback returned [r]: Tk records the traceback of
    an exception that escaped and goes on. *)
Definition settle (r : result unit * App) : App :=
  match r with
  | (Ok _, s') => s'
  | (Raise e, s') => set_tracebacks (e :: tracebacks s') s'
  end.

End ImageFilterApp.

(* ================================================================== *)
(** ** TinyPillow: an executable instance of the interface *)
(* ================================================================== *)

(** A small stand-in for Pillow on which sessions can be run.  It follows
    Pillow where the application depends on it: [Image.open] is lazy (a
    file whose pixel data is truncated opens, and fails on first use);
    converting to the mode an image already has is a copy; ["L"] is the
    ITU-R 601-2 luma; ["L"] to ["RGB"] replicates the band; a kernel larger
    than the image leaves it unchanged; a palette image cannot be filtered;
    [resize] refuses a size below 1 and
    is a copy at the image's own size (at another size it keeps the leading
    pixels: resampling is not modelled); [save] picks the format from the
    extension, decodes, and only then opens the target for writing, so an
    encoder that refuses the mode leaves an emptied file where there was
    one and no file where there was none.  Anything else raises. *)
Module TinyPillow.

Open Scope string_scope.
Open Scope Z_scope.

Record timage : Type := {
  t_mode : string;
  t_size : Z * Z;
  t_data : list (list Z);
  t_truncated : bool
}.

Inductive tfile : Type := NotAnImage | ImageFile (i : timage).

Definition tfs : Type := list (string * tfile).

Fixpoint lookup (p : string) (d : tfs) : option tfile :=
  match d with
  | [] => None
  | (q, f) :: r => if String.eqb p q then Some f else lookup p r
  end.

Definition t_open (d : tfs) (p : string) : result timage :=
  match lookup p d with
  | None => Raise (Exn "FileNotFoundError" "No such file or directory")
  | Some NotAnImage => Raise (Exn "UnidentifiedImageError" "cannot identify image file")
  | Some (ImageFile i) => Ok i
  end.

(** [Image.load]: decoding happens here. *)
Definition t_load (i : timage) : result timage :=
  if t_truncated i then Raise (Exn "OSError" "image file is truncated") else Ok i.

Definition with_pixels (m : string) (f : list Z -> list Z) (i : timage) : timage :=
  {| t_mode := m; t_size := t_size i; t_data := map f (t_data i);
     t_truncated := t_truncated i |}.

Definition luma (p : list Z) : list Z :=
  match p with
  | [r; g; b] => [Z.shiftr (r * 19595 + g * 38470 + b * 7471 + 32768) 16]
  | _ => [hd 0 p]
  end.

Definition replicate (p : list Z) : list Z := let v := hd 0 p in [v; v; v].

Definition unsupported {A : Type} : result A :=
  Raise (Exn "NotImplementedError" "not supported").

Definition t_convert (m : string) (i : timage) : result timage :=
  and_then (t_load i) (fun i =>
    if String.eqb (t_mode i) m then Ok i
    else if String.eqb m "L" then Ok (with_pixels "L" luma i)
    else if String.eqb m "RGB" then
      if String.eqb (t_mode i) "L" then Ok (with_pixels "RGB" replicate i)
      else if String.eqb (t_mode i) "P" then Ok (with_pixels "RGB" (fun p => p) i)
      else unsupported
    else unsupported).

Definition kernel_size (k : kernel) : Z :=
  match k with BLUR => 5 | _ => 3 end.

Definition t_filter (k : kernel) (i : timage) : result timage :=
  and_then (t_load i) (fun i =>
    let '(w, h) := t_size i in
    if String.eqb (t_mode i) "P"
    then Raise (Exn "ValueError" "cannot filter palette images")
    else if (w <? kernel_size k) || (h <? kernel_size k) then Ok i
    else unsupported).

Definition pixel_eqb (p q : list Z) : bool :=
  if list_eq_dec Z.eq_dec p q then true else false.

Definition distinct (l : list (list Z)) : list (list Z) :=
  fold_right (fun p acc => if existsb (pixel_eqb p) acc then acc else p :: acc) [] l.

Definition t_quantize (colors : Z) (i : timage) : result timage :=
  and_then (t_load i) (fun i =>
    if Z.of_nat (List.length (distinct (t_data i))) <=? colors
    then Ok (with_pixels "P" (fun p => p) i) else unsupported).

(** [ImageEnhance.Color]: the image and its grey version. *)
Definition t_Color (i : timage) : result (timage * timage) :=
  and_then (t_convert "L" i) (fun g =>
  and_then (t_convert (t_mode i) g) (fun d => Ok (i, d))).

Definition clip8 (x : Q) : Z :=
  if Qle_bool x 0 then 0 else if Qle_bool 255 x then 255 else Float64.trunc x.

Fixpoint blend (alpha : Q) (d v : list Z) : list Z :=
  match d, v with
  | a :: d', b :: v' =>
      clip8 (inject_Z a + alpha * (inject_Z b - inject_Z a))%Q :: blend alpha d' v'
  | _, _ => []
  end.

Fixpoint blend_rows (alpha : Q) (d v : list (list Z)) : list (list Z) :=
  match d, v with
  | a :: d', b :: v' => blend alpha a b :: blend_rows alpha d' v'
  | _, _ => []
  end.

Definition t_enhance (e : timage * timage) (factor : float) : result timage :=
  let '(i, d) := e in
  Ok {| t_mode := t_mode i; t_size := t_size i;
        t_data := blend_rows factor (t_data d) (t_data i);
        t_truncated := t_truncated i |}.

Definition t_resize (size : Z * Z) (r : resampling) (i : timage) : result timage :=
  let '(w, h) := size in
  if (w <? 1) || (h <? 1) then Raise (Exn "ValueError" "height and width must be > 0")
  else and_then (t_load i) (fun i =>
    if Z.eqb w (fst (t_size i)) && Z.eqb h (snd (t_size i)) then Ok i
    else Ok {| t_mode := t_mode i; t_size := size;
               t_data := firstn (Z.to_nat (w * h)) (t_data i);
               t_truncated := false |}).

(** The formats [save] knows, by extension (as written, in lower case). *)
Inductive tformat : Type := PNG | JPEG | GIF | BMP.

Definition ends_with (suffix s : string) : bool :=
  String.eqb
    (substring (String.length s - String.length suffix)%nat (String.length suffix) s)
    suffix.

Definition format_of (p : string) : option tformat :=
  if ends_with ".png" p then Some PNG
  else if ends_with ".jpg" p || ends_with ".jpeg" p then Some JPEG
  else if ends_with ".gif" p then Some GIF
  else if ends_with ".bmp" p then Some BMP
  else None.

(** The JPEG encoder has no palette mode. *)
Definition can_write (f : tformat) (mode : string) : bool :=
  match f with
  | JPEG => negb (String.eqb mode "P")
  | _ => true
  end.

Definition t_save (i : timage) (p : string) (d : tfs) : result unit * tfs :=
  match format_of p with
  | None => (Raise (Exn "ValueError" "unknown file extension"), d)
  | Some f =>
      match t_load i with
      | Raise e => (Raise e, d)
      | Ok i =>
          if can_write f (t_mode i) then (Ok tt, (p, ImageFile i) :: d)
          else (Raise (Exn "OSError" "cannot write mode as JPEG"),
                match lookup p d with
                | Some _ => (p, NotAnImage) :: d
                | None => d
                end)
      end
  end.

#[export] Instance tiny : Pillow := {|
  image := timage;
  enhancer := timage * timage;
  photo := timage;
  fs := tfs;
  img_mode := t_mode;
  img_size := t_size;
  img_data := t_data;
  Image_open := t_open;
  img_copy := t_load;
  img_convert := t_convert;
  img_filter := t_filter;
  img_quantize := t_quantize;
  ImageEnhance_Color := t_Color;
  enhance := t_enhance;
  img_resize := t_resize;
  img_save := t_save;
  ImageTk_PhotoImage := t_load
|}.

(** Files for the scenarios. *)

Definition red : list Z := [200; 30; 30].

(** a 2x2 picture *)
Definition small : timage :=
  {| t_mode := "RGB"; t_size := (2, 2);
     t_data := [red; [10; 200; 10]; [10; 10; 200]; [90; 90; 90]];
     t_truncated := false |}.

(** 1 pixel wide, 600 high *)
Definition sliver : timage :=
  {| t_mode := "RGB"; t_size := (1, 600); t_data := repeat red 600;
     t_truncated := false |}.

(** a picture whose header parses and whose pixel data is cut short *)
Definition cut : timage :=
  {| t_mode := "RGB"; t_size := (2, 2); t_data := [red]; t_truncated := true |}.

(** a 2x2 palette picture *)
Definition icon : timage :=
  {| t_mode := "P"; t_size := (2, 2);
     t_data := [red; red; [10; 10; 200]; [10; 10; 200]];
     t_truncated := false |}.

Definition files : tfs :=
  [ ("/pics/small.png", ImageFile small);
    ("/pics/icon.gif", ImageFile icon);
    ("/pics/sliver.png", ImageFile sliver);
    ("/pics/cut.jpg", ImageFile cut);
    ("/pics/notes.png", NotAnImage) ].

(** Sessions for the scenarios. *)

Definition start : App := init files.

Definition session_small : App :=
  mainloop [Press UploadBtn "/pics/small.png"] start.

Definition session_sliver : App :=
  mainloop [Press UploadBtn "/pics/sliver.png"] start.

Definition session_icon : App :=
  mainloop [Press UploadBtn "/pics/icon.gif"] start.

Definition small_obj : obj timage := {| oid := 0; val := small |}.

Definition icon_obj : obj timage := {| oid := 0; val := icon |}.

(** small.png through [convert("L").convert("RGB")] *)
Definition small_gray : timage :=
  with_pixels "RGB" replicate (with_pixels "L" luma small).

(** small.png loaded, then the truncated cut.jpg opened over it *)
Definition session_cut : App :=
  mainloop [Press UploadBtn "/pics/small.png"; Press UploadBtn "/pics/cut.jpg"] start.

(** an image without columns *)
Definition hollow : obj timage :=
  {| oid := 0;
     val := {| t_mode := "RGB"; t_size := (0, 5); t_data := []; t_truncated := false |} |}.


End TinyPillow.

(* ================================================================== *)
(** ** Facts about binary64 rounding *)
(* ================================================================== *)

Module Float64Facts.

Import Float64.
Open Scope Q_scope.

Lemma pow2_pos e : 0 < pow2 e.
Proof. unfold pow2. apply Qpower_0_lt. reflexivity. Qed.

Lemma pow2_add a b : pow2 (a + b) == pow2 a * pow2 b.
Proof. unfold pow2. apply Qpower_plus. discriminate. Qed.

Lemma pow2_0 : pow2 0 == 1.
Proof. reflexivity. Qed.

Lemma pow2_Z n : (0 <= n)%Z -> pow2 n == inject_Z (2 ^ n).
Proof. intros. unfold pow2. rewrite Zpower_Qpower by assumption. reflexivity. Qed.

Lemma pow2_le a b : (a <= b)%Z -> pow2 a <= pow2 b.
Proof.
  intros H. unfold pow2. apply Qpower_le_compat_l; [assumption | discriminate].
Qed.

Lemma pow2_cancel a : pow2 a * pow2 (- a) == 1.
Proof. rewrite <- pow2_add. replace (a + - a)%Z with 0%Z by lia. reflexivity. Qed.

Lemma ilog2_le x : 0 < x -> pow2 (ilog2 x) <= x.
Proof.
  intros Hx. unfold ilog2.
  destruct (Qle_bool _ x) eqn:E.
  - apply Qle_bool_iff in E. exact E.
  - clear E. destruct x as [n d]. cbn [Qnum Qden].
    assert (Hn : (0 < n)%Z).
    { unfold Qlt in Hx. cbn in Hx. lia. }
    pose proof (Z.log2_spec n Hn) as [Hn1 _].
    pose proof (Z.log2_spec (Zpos d) eq_refl) as [_ Hd2].
    pose proof (Z.log2_nonneg n) as Hln.
    pose proof (Z.log2_nonneg (Zpos d)) as Hld.
    set (ln := Z.log2 n) in *. set (ld := Z.log2 (Zpos d)) in *.
    replace (ln - ld - 1)%Z with (ln + - (ld + 1))%Z by lia.
    rewrite pow2_add.
    assert (A : pow2 ln <= inject_Z n).
    { rewrite pow2_Z by assumption. rewrite <- Zle_Qle. exact Hn1. }
    assert (B : inject_Z (Zpos d) <= pow2 (ld + 1)).
    { rewrite pow2_Z by lia. rewrite <- Zle_Qle. unfold Z.succ in Hd2. lia. }
    pose proof (pow2_cancel (ld + 1)) as C.
    pose proof (pow2_pos (- (ld + 1))) as D.
    pose proof (pow2_pos ln) as D2.
    assert (E : n # d == inject_Z n / inject_Z (Zpos d)) by (apply Qmake_Qdiv).
    rewrite E.
    assert (F : 0 < inject_Z (Zpos d)) by reflexivity.
    apply Qle_shift_div_l; [exact F|].
    (* pow2 ln * p' * d <= n, with p' * d <= p' * pow2 (ld+1) = 1 *)
    assert (G : pow2 (- (ld + 1)) * inject_Z (Zpos d) <= 1).
    { rewrite <- C. rewrite (Qmult_comm (pow2 (ld+1))).
      apply Qmult_le_l; assumption. }
    rewrite <- Qmult_assoc.
    apply Qle_trans with (pow2 ln * 1); [|lra].
    apply Qmult_le_l; assumption.
Qed.

Lemma rne_cases x : rne x = Qfloor x /\ x - inject_Z (Qfloor x) <= 1 # 2
                 \/ rne x = (Qfloor x + 1)%Z /\ 1 # 2 <= x - inject_Z (Qfloor x).
Proof.
  unfold rne.
  destruct (Qcompare_spec (x - inject_Z (Qfloor x)) (1 # 2)) as [E | E | E].
  - destruct (Z.even (Qfloor x)); [left | right]; split; try reflexivity;
      rewrite E; apply Qle_refl.
  - left. split; [reflexivity | apply Qlt_le_weak; exact E].
  - right. split; [reflexivity | apply Qlt_le_weak; exact E].
Qed.

Lemma rne_err x : Qabs (inject_Z (rne x) - x) <= 1 # 2.
Proof.
  pose proof (Qfloor_le x) as L. pose proof (Qlt_floor x) as U.
  rewrite inject_Z_plus in U. change (inject_Z 1) with 1 in U.
  apply Qabs_Qle_condition.
  destruct (rne_cases x) as [[-> H] | [-> H]].
  - split; lra.
  - rewrite inject_Z_plus. change (inject_Z 1) with 1. split; lra.
Qed.

Lemma rne_Z k : rne (inject_Z k) = k.
Proof.
  destruct (rne_cases (inject_Z k)) as [[-> H] | [E H]].
  - apply Qfloor_Z.
  - rewrite Qfloor_Z in H. exfalso.
    assert (Z0 : inject_Z k - inject_Z k == 0) by ring.
    rewrite Z0 in H. apply (Qle_not_lt _ _ H). reflexivity.
Qed.

Lemma rne_ge k x : inject_Z k <= x -> (k <= rne x)%Z.
Proof.
  intros H. apply Qfloor_resp_le in H. rewrite Qfloor_Z in H.
  destruct (rne_cases x) as [[-> _] | [-> _]]; lia.
Qed.

Lemma rne_eq x y : x == y -> rne x = rne y.
Proof.
  intros E. unfold rne.
  assert (F : Qfloor x = Qfloor y) by (rewrite E; reflexivity).
  rewrite F.
  assert (G : Qcompare (x - inject_Z (Qfloor y)) (1 # 2)
            = Qcompare (y - inject_Z (Qfloor y)) (1 # 2)) by (rewrite E; reflexivity).
  rewrite G. reflexivity.
Qed.

(** the scaled significand of a positive number is at least 2^52 *)
Lemma significand_ge x : 0 < x -> pow2 52 <= x * pow2 (52 - ilog2 x).
Proof.
  intros Hx. pose proof (ilog2_le Hx) as L.
  pose proof (pow2_pos (52 - ilog2 x)) as Pp.
  assert (E : pow2 52 == pow2 (ilog2 x) * pow2 (52 - ilog2 x)).
  { rewrite <- pow2_add. replace (ilog2 x + (52 - ilog2 x))%Z with 52%Z by lia.
    reflexivity. }
  rewrite E. apply Qmult_le_compat_r; [exact L | apply Qlt_le_weak; exact Pp].
Qed.

Lemma pow2_unscale x e : x * pow2 (52 - e) * pow2 (e - 52) == x.
Proof.
  rewrite <- Qmult_assoc, <- pow2_add.
  replace (52 - e + (e - 52))%Z with 0%Z by lia. rewrite pow2_0. ring.
Qed.

Lemma fl_pos_err x : 0 < x -> Qabs (fl_pos x - x) <= x * u53.
Proof.
  intros Hx. unfold fl_pos.
  set (e := ilog2 x). set (m := x * pow2 (52 - e)).
  pose proof (rne_err m) as R.
  pose proof (pow2_pos (e - 52)) as Pp.
  assert (E : inject_Z (rne m) * pow2 (e - 52) - x
              == (inject_Z (rne m) - m) * pow2 (e - 52)).
  { transitivity (inject_Z (rne m) * pow2 (e - 52) - m * pow2 (e - 52)); [| ring].
    unfold m. rewrite (pow2_unscale x e). reflexivity. }
  rewrite E, Qabs_Qmult, (Qabs_pos (pow2 (e - 52))) by (apply Qlt_le_weak; exact Pp).
  apply Qle_trans with ((1 # 2) * pow2 (e - 52)).
  - apply Qmult_le_compat_r; [exact R | apply Qlt_le_weak; exact Pp].
  - (* (1/2) 2^(e-52) = 2^e 2^-53 <= x 2^-53 *)
    assert (F : (1 # 2) * pow2 (e - 52) == pow2 e * u53).
    { unfold u53. rewrite <- pow2_add.
      replace (e + -53)%Z with (-1 + (e - 52))%Z by lia.
      rewrite pow2_add. reflexivity. }
    rewrite F. apply Qmult_le_compat_r.
    + apply ilog2_le; exact Hx.
    + apply Qlt_le_weak. apply pow2_pos.
Qed.

Lemma fl_pos_ge x : 0 < x -> pow2 (ilog2 x) <= fl_pos x.
Proof.
  intros Hx. unfold fl_pos.
  pose proof (significand_ge Hx) as S.
  rewrite pow2_Z in S by lia.
  apply rne_ge in S.
  pose proof (pow2_pos (ilog2 x - 52)) as Pp.
  assert (E : pow2 (ilog2 x) == inject_Z (2 ^ 52) * pow2 (ilog2 x - 52)).
  { rewrite <- pow2_Z by lia. rewrite <- pow2_add.
    replace (52 + (ilog2 x - 52))%Z with (ilog2 x) by lia. reflexivity. }
  rewrite E. apply Qmult_le_compat_r; [| apply Qlt_le_weak; exact Pp].
  rewrite <- Zle_Qle. exact S.
Qed.

Lemma fl_eq x y : x == y -> fl x = fl y.
Proof. intros E. unfold fl. rewrite (Qred_complete _ _ E). reflexivity. Qed.

Lemma fl_gt x : 0 < x -> fl x == fl_pos (Qred x).
Proof.
  intros Hx. unfold fl. cbv zeta.
  assert (H : 0 < Qred x) by (rewrite Qred_correct; exact Hx).
  destruct (Qcompare_spec (Qred x) 0) as [E | E | E].
  - rewrite E in H. discriminate H.
  - exfalso. apply (Qlt_irrefl 0). apply Qlt_trans with (Qred x); assumption.
  - apply Qred_correct.
Qed.

Lemma fl_lt x : x < 0 -> fl x == - fl_pos (- Qred x).
Proof.
  intros Hx. unfold fl. cbv zeta.
  assert (H : Qred x < 0) by (rewrite Qred_correct; exact Hx).
  destruct (Qcompare_spec (Qred x) 0) as [E | E | E].
  - rewrite E in H. discriminate H.
  - apply Qred_correct.
  - exfalso. apply (Qlt_irrefl 0). apply Qlt_trans with (Qred x); assumption.
Qed.

Lemma fl_0 x : x == 0 -> fl x == 0.
Proof.
  intros Hx. unfold fl. cbv zeta.
  assert (H : Qred x == 0) by (rewrite Qred_correct; exact Hx).
  destruct (Qcompare_spec (Qred x) 0) as [E | E | E].
  - reflexivity.
  - rewrite H in E. discriminate E.
  - rewrite H in E. discriminate E.
Qed.

Lemma fl_err x : Qabs (fl x - x) <= Qabs x * u53.
Proof.
  pose proof (Qred_correct x) as Hy.
  destruct (Q_dec x 0) as [[H | H] | H].
  - rewrite (fl_lt H). set (y := Qred x) in *.
    assert (Hn : 0 < - y) by lra.
    pose proof (fl_pos_err Hn) as E.
    rewrite (Qabs_neg x) by lra. rewrite <- Hy.
    assert (F : - fl_pos (- y) - y == - (fl_pos (- y) - - y)) by ring.
    rewrite F, Qabs_opp. exact E.
  - rewrite (fl_gt H). set (y := Qred x) in *.
    assert (Hn : 0 < y) by lra.
    pose proof (fl_pos_err Hn) as E.
    rewrite (Qabs_pos x) by lra. rewrite <- Hy. exact E.
  - rewrite (fl_0 H), H. cbn. discriminate.
Qed.

Lemma fl_nonpos x : x <= 0 -> fl x <= 0.
Proof.
  intros Hx. destruct (Qlt_le_dec x 0) as [H | H].
  - rewrite (fl_lt H).
    assert (Hn : 0 < - Qred x) by (rewrite Qred_correct; lra).
    pose proof (fl_pos_ge Hn) as G. pose proof (pow2_pos (ilog2 (- Qred x))). lra.
  - rewrite fl_0; lra.
Qed.

Lemma fl_positive x : 0 < x -> 0 < fl x.
Proof.
  intros H. rewrite (fl_gt H).
  assert (Hn : 0 < Qred x) by (rewrite Qred_correct; lra).
  pose proof (fl_pos_ge Hn) as G. pose proof (pow2_pos (ilog2 (Qred x))). lra.
Qed.

(** a number at least 1 does not round below 1 *)
Lemma fl_ge_1 x : 1 <= x -> 1 <= fl x.
Proof.
  intros Hx. assert (H : 0 < x) by lra. rewrite (fl_gt H).
  assert (Hn : 0 < Qred x) by (rewrite Qred_correct; lra).
  set (y := Qred x) in *. assert (Hy : 1 <= y) by (unfold y; rewrite Qred_correct; exact Hx).
  destruct (Z_le_gt_dec 0 (ilog2 y)) as [L | L].
  - pose proof (fl_pos_ge Hn) as G.
    pose proof (pow2_le L) as G2. rewrite pow2_0 in G2. lra.
  - unfold fl_pos. set (e := ilog2 y) in *.
    pose proof (pow2_pos (52 - e)) as Pp.
    assert (S : inject_Z (2 ^ (52 - e)) <= y * pow2 (52 - e)).
    { rewrite <- pow2_Z by lia. rewrite <- (Qmult_1_l (pow2 (52 - e))) at 1.
      apply Qmult_le_compat_r; [exact Hy | apply Qlt_le_weak; exact Pp]. }
    apply rne_ge in S.
    assert (E : 1 == inject_Z (2 ^ (52 - e)) * pow2 (e - 52)).
    { rewrite <- pow2_Z by lia. rewrite <- pow2_add.
      replace (52 - e + (e - 52))%Z with 0%Z by lia. reflexivity. }
    rewrite E at 1. apply Qmult_le_compat_r.
    + rewrite <- Zle_Qle. exact S.
    + apply Qlt_le_weak. apply pow2_pos.
Qed.

(** integers below 2^53 are floats *)
Lemma fl_int w : (1 <= w < 2 ^ 53)%Z -> fl (inject_Z w) == inject_Z w.
Proof.
  intros [H1 H2].
  assert (H : 0 < inject_Z w)
    by (change (inject_Z 0 < inject_Z w); rewrite <- Zlt_Qlt; lia).
  rewrite (fl_gt H).
  pose proof (Qred_correct (inject_Z w)) as Hy.
  set (y := Qred (inject_Z w)) in *.
  assert (Hp : 0 < y) by lra.
  unfold fl_pos. set (e := ilog2 y).
  assert (He : (e <= 52)%Z).
  { destruct (Z_le_gt_dec e 52) as [L | L]; [exact L | exfalso].
    pose proof (ilog2_le Hp) as G. fold e in G.
    assert (L' : (53 <= e)%Z) by lia.
    pose proof (pow2_le L') as G2. rewrite pow2_Z in G2 by lia.
    assert (G3 : inject_Z (2 ^ 53) <= inject_Z w) by lra.
    rewrite <- Zle_Qle in G3. lia. }
  assert (E : y * pow2 (52 - e) == inject_Z (w * 2 ^ (52 - e))).
  { rewrite pow2_Z by lia. rewrite inject_Z_mult, Hy. reflexivity. }
  rewrite (rne_eq E), rne_Z, inject_Z_mult, <- pow2_Z by lia.
  apply pow2_unscale.
Qed.

(** [fl] agrees with the machine's division and multiplication where the
    preview computation uses them. *)
Example fl_agrees_with_binary64 :
  of_binary64 (PrimFloat.div (binary64_of_Z 780) (binary64_of_Z 795))
    = Some (fl (780 # 795)) /\
  of_binary64 (PrimFloat.div (binary64_of_Z 480) (binary64_of_Z 10000))
    = Some (fl (480 # 10000)) /\
  of_binary64 (PrimFloat.div (binary64_of_Z 780) (binary64_of_Z 4000))
    = Some (fl (780 # 4000)) /\
  of_binary64 (PrimFloat.mul (binary64_of_Z 795)
                 (PrimFloat.div (binary64_of_Z 780) (binary64_of_Z 795)))
    = Some (fl (795 * fl (780 # 795))) /\
  of_binary64 (PrimFloat.mul (binary64_of_Z 3000)
                 (PrimFloat.div (binary64_of_Z 780) (binary64_of_Z 4000)))
    = Some (fl (3000 * fl (780 # 4000))).
Proof. repeat split; vm_compute; reflexivity. Qed.

End Float64Facts.

(* ================================================================== *)
(** ** The preview size *)
(* ================================================================== *)

Module PreviewFacts.

Import Float64 Float64Facts.
Open Scope Q_scope.

Lemma trunc_eq x y : x == y -> trunc x = trunc y.
Proof.
  intros E. unfold trunc, Qceiling.
  assert (B : Qle_bool 0 x = Qle_bool 0 y) by (rewrite E; reflexivity).
  assert (F : Qfloor x = Qfloor y) by (rewrite E; reflexivity).
  assert (G : Qfloor (- x) = Qfloor (- y)) by (rewrite E; reflexivity).
  rewrite B, F, G. reflexivity.
Qed.

Lemma trunc_Z k : trunc (inject_Z k) = k.
Proof.
  unfold trunc. destruct (Qle_bool 0 (inject_Z k)).
  - apply Qfloor_Z.
  - apply Qceiling_Z.
Qed.

Lemma trunc_nonpos x : x <= 0 -> (trunc x <= 0)%Z.
Proof.
  intros H. unfold trunc. destruct (Qle_bool 0 x) eqn:E.
  - apply Qfloor_resp_le in H. exact H.
  - apply Qceiling_resp_le in H. exact H.
Qed.

Lemma trunc_pos x : 0 <= x -> trunc x = Qfloor x.
Proof.
  intros H. unfold trunc. apply Qle_bool_iff in H. rewrite H. reflexivity.
Qed.

(** below [k + 1] the truncation is at most [k] *)
Lemma trunc_below x k : (0 <= k)%Z -> x < inject_Z k + 1 -> (trunc x <= k)%Z.
Proof.
  intros Hk H. destruct (Qlt_le_dec x 0) as [N | N].
  - pose proof (@trunc_nonpos x (Qlt_le_weak _ _ N)). lia.
  - rewrite (trunc_pos N). pose proof (Qfloor_le x) as L.
    assert (L2 : inject_Z (Qfloor x) < inject_Z (k + 1)).
    { rewrite inject_Z_plus. change (inject_Z 1) with 1. lra. }
    rewrite <- Zlt_Qlt in L2. lia.
Qed.

Lemma min3_spec a b c :
  min3 a b c <= a /\ min3 a b c <= b /\ min3 a b c <= c /\
  (min3 a b c = a \/ min3 a b c = b \/ min3 a b c = c).
Proof.
  unfold min3.
  destruct (Qle_bool a b) eqn:E1.
  - apply Qle_bool_iff in E1. destruct (Qle_bool a c) eqn:E2.
    + apply Qle_bool_iff in E2. repeat split; auto; lra.
    + assert (c < a).
      { apply Qnot_le_lt. intros C. apply Qle_bool_iff in C. congruence. }
      repeat split; auto; lra.
  - assert (b < a).
    { apply Qnot_le_lt. intros C. apply Qle_bool_iff in C. congruence. }
    destruct (Qle_bool b c) eqn:E2.
    + apply Qle_bool_iff in E2. repeat split; auto; lra.
    + assert (c < b).
      { apply Qnot_le_lt. intros C. apply Qle_bool_iff in C. congruence. }
      repeat split; auto; lra.
Qed.

Lemma mul_int_float_fl w s :
  (1 <= w < 2 ^ 53)%Z -> mul_int_float w s = fl (inject_Z w * s).
Proof.
  intros H. unfold mul_int_float. apply fl_eq. rewrite (fl_int H). reflexivity.
Qed.

Lemma inject_Z_pos w : (1 <= w)%Z -> 1 <= inject_Z w.
Proof. intros H. change (inject_Z 1 <= inject_Z w). rewrite <- Zle_Qle. exact H. Qed.

Lemma u53_u : u53 == u.
Proof. reflexivity. Qed.

(** The product [w * s], as the code computes it, against the exact one. *)
Lemma product_bounds w s :
  (1 <= w < 2 ^ 53)%Z ->
  (s <= 0 -> mul_int_float w s <= 0) /\
  (0 < s -> 0 < mul_int_float w s /\
            inject_Z w * s * (1 - u) <= mul_int_float w s <= inject_Z w * s * (1 + u)).
Proof.
  intros H. rewrite (mul_int_float_fl s H).
  pose proof (@inject_Z_pos w ltac:(lia)) as W.
  split; intros Hs.
  - apply fl_nonpos. nra.
  - assert (Pp : 0 < inject_Z w * s) by nra.
    split; [apply fl_positive; exact Pp |].
    pose proof (fl_err (inject_Z w * s)) as E.
    rewrite (Qabs_pos (inject_Z w * s)) in E by lra.
    rewrite u53_u in E.
    apply Qabs_Qle_condition in E. destruct E as [E1 E2].
    set (t := inject_Z w * s) in *. unfold u in *. split; lra.
Qed.

Lemma canvas_dims_ge winfo :
  (2 <= fst (canvas_dims winfo) /\ 2 <= snd (canvas_dims winfo))%Z.
Proof.
  destruct winfo as [a b]. unfold canvas_dims. cbn [fst snd].
  destruct (Z.leb_spec a 1), (Z.leb_spec b 1); lia.
Qed.

Lemma truediv_ok a w : (1 <= w)%Z -> truediv a w = Ok (fl (inject_Z a / inject_Z w)).
Proof.
  intros H. unfold truediv. destruct (Z.eqb_spec w 0); [lia | reflexivity].
Qed.

(** the fit factor [fl (a / w)] of a positive margin-reduced canvas size *)
Lemma fit_bounds a w :
  (1 <= w)%Z ->
  let q := fl (inject_Z a / inject_Z w) in
  ((a <= 0)%Z -> q <= 0) /\
  ((0 < a)%Z -> 0 < q /\ inject_Z w * q <= inject_Z a * (1 + u)) /\
  ((w <= a)%Z -> 1 <= q).
Proof.
  intros Hw q. pose proof (inject_Z_pos Hw) as W.
  set (r := inject_Z a / inject_Z w) in *.
  assert (R : inject_Z w * r == inject_Z a) by (unfold r; field; lra).
  repeat split.
  - intros Ha. apply fl_nonpos.
    assert (inject_Z a <= 0) by (change (inject_Z a <= inject_Z 0); rewrite <- Zle_Qle; lia).
    nra.
  - apply fl_positive.
    assert (0 < inject_Z a) by (change (inject_Z 0 < inject_Z a); rewrite <- Zlt_Qlt; lia).
    nra.
  - assert (A : 0 < inject_Z a) by (change (inject_Z 0 < inject_Z a); rewrite <- Zlt_Qlt; lia).
    assert (Pr : 0 < r) by nra.
    pose proof (fl_err r) as E. rewrite (Qabs_pos r) in E by lra.
    rewrite u53_u in E. apply Qabs_Qle_condition in E. destruct E as [_ E].
    fold q in E. unfold u in *. nra.
  - intros Ha. apply fl_ge_1.
    assert (inject_Z w <= inject_Z a) by (rewrite <- Zle_Qle; lia).
    nra.
Qed.

Lemma inject_Z_bound w n : (w <= n)%Z -> inject_Z w <= inject_Z n.
Proof. intros H. rewrite <- Zle_Qle. exact H. Qed.

Lemma no_upscale w s :
  (1 <= w <= 2 ^ 50)%Z -> s <= 1 -> (int (mul_int_float w s) <= w)%Z.
Proof.
  intros [H1 H2] Hs.
  assert (Hw : (1 <= w < 2 ^ 53)%Z) by lia.
  destruct (product_bounds s Hw) as [N Pp].
  pose proof (inject_Z_pos H1) as W.
  pose proof (inject_Z_bound H2) as W2. change (inject_Z (2 ^ 50)) with (1125899906842624 # 1) in W2.
  unfold int. destruct (Qlt_le_dec 0 s) as [C | C].
  - destruct (Pp C) as [_ [_ U]]. apply trunc_below; [lia |].
    unfold u in U. nra.
  - pose proof (trunc_nonpos (N C)). lia.
Qed.

Lemma within_margin a w s :
  (1 <= w <= 2 ^ 50)%Z -> s <= fl (inject_Z a / inject_Z w) -> s <= 1 ->
  (int (mul_int_float w s) <= Z.max 0 a)%Z.
Proof.
  intros [H1 H2] Hq Hs.
  assert (Hw : (1 <= w < 2 ^ 53)%Z) by lia.
  destruct (product_bounds s Hw) as [N Pp].
  destruct (@fit_bounds a w H1) as [Fn [Fp _]].
  pose proof (inject_Z_pos H1) as W.
  unfold int. destruct (Qlt_le_dec 0 s) as [C | C].
  - destruct (Z_le_gt_dec w a) as [L | L].
    + pose proof (@no_upscale w s (conj H1 H2) Hs). unfold int in *. lia.
    + destruct (Z_le_gt_dec a 0) as [L0 | L0].
      * pose proof (Fn L0). lra.
      * destruct (Fp ltac:(lia)) as [_ F].
        destruct (Pp C) as [_ [_ U]].
        assert (A2 : inject_Z a <= inject_Z (2 ^ 50)) by (apply inject_Z_bound; lia).
        change (inject_Z (2 ^ 50)) with (1125899906842624 # 1) in A2.
        assert (A1 : 1 <= inject_Z a) by (apply inject_Z_pos; lia).
        assert (T : (trunc (mul_int_float w s) <= a)%Z).
        { apply trunc_below; [lia |]. unfold u in *.
          set (q := fl (inject_Z a / inject_Z w)) in *.
          assert (M : inject_Z w * s <= inject_Z w * q) by nra.
          nra. }
        lia.
  - pose proof (trunc_nonpos (N C)). lia.
Qed.

(** cross-multiplied aspect error of the truncated sizes *)
Lemma aspect_within_rounding w h s :
  (1 <= w)%Z -> (1 <= h)%Z -> (w * h <= 2 ^ 50)%Z -> 0 < s -> s <= 1 ->
  (Z.abs (int (mul_int_float w s) * h - int (mul_int_float h s) * w) <= Z.max w h)%Z.
Proof.
  intros H1 H2 H3 Hs Hs1.
  assert (Hw : (1 <= w < 2 ^ 53)%Z) by nia.
  assert (Hh : (1 <= h < 2 ^ 53)%Z) by nia.
  destruct (product_bounds s Hw) as [_ Pw]. destruct (Pw Hs) as [Xp [Xl Xu]].
  destruct (product_bounds s Hh) as [_ Ph]. destruct (Ph Hs) as [Yp [Yl Yu]].
  unfold int.
  set (X := mul_int_float w s) in *. set (Y := mul_int_float h s) in *.
  rewrite (trunc_pos (Qlt_le_weak _ _ Xp)), (trunc_pos (Qlt_le_weak _ _ Yp)).
  pose proof (Qfloor_le X) as FX. pose proof (Qlt_floor X) as FX'.
  pose proof (Qfloor_le Y) as FY. pose proof (Qlt_floor Y) as FY'.
  rewrite inject_Z_plus in FX', FY'. change (inject_Z 1) with 1 in FX', FY'.
  pose proof (inject_Z_pos H1) as W. pose proof (inject_Z_pos H2) as H.
  pose proof (inject_Z_bound H3) as WH. rewrite inject_Z_mult in WH.
  change (inject_Z (2 ^ 50)) with (1125899906842624 # 1) in WH.
  set (nw := Qfloor X) in *. set (nh := Qfloor Y) in *.
  set (qw := inject_Z w) in *. set (qh := inject_Z h) in *.
  set (T := qw * qh * s).
  assert (P0 : 1 <= qw * qh) by nra.
  assert (P : 0 < T) by (unfold T; nra).
  assert (P2 : T <= 1125899906842624 # 1) by (unfold T; nra).
  assert (XH1 : X * qh <= T * (1 + u)).
  { setoid_replace (T * (1 + u)) with (qw * s * (1 + u) * qh) by (unfold T; ring).
    apply Qmult_le_compat_r; lra. }
  assert (XH2 : T * (1 - u) <= X * qh).
  { setoid_replace (T * (1 - u)) with (qw * s * (1 - u) * qh) by (unfold T; ring).
    apply Qmult_le_compat_r; lra. }
  assert (YW1 : Y * qw <= T * (1 + u)).
  { setoid_replace (T * (1 + u)) with (qh * s * (1 + u) * qw) by (unfold T; ring).
    apply Qmult_le_compat_r; lra. }
  assert (YW2 : T * (1 - u) <= Y * qw).
  { setoid_replace (T * (1 - u)) with (qh * s * (1 - u) * qw) by (unfold T; ring).
    apply Qmult_le_compat_r; lra. }
  assert (N1 : inject_Z nw * qh <= X * qh) by (apply Qmult_le_compat_r; lra).
  assert (N1' : X * qh < (inject_Z nw + 1) * qh) by (apply Qmult_lt_compat_r; lra).
  assert (N2 : inject_Z nh * qw <= Y * qw) by (apply Qmult_le_compat_r; lra).
  assert (N2' : Y * qw < (inject_Z nh + 1) * qw) by (apply Qmult_lt_compat_r; lra).
  assert (UB : inject_Z (nw * h - nh * w) < inject_Z (w + 1)).
  { rewrite inject_Z_plus. unfold Z.sub. rewrite inject_Z_plus, inject_Z_opp, !inject_Z_mult.
    fold qw qh. change (inject_Z 1) with 1. unfold u in *. lra. }
  assert (LB : inject_Z (- h - 1) < inject_Z (nw * h - nh * w)).
  { unfold Z.sub. rewrite !inject_Z_plus, !inject_Z_opp, !inject_Z_mult.
    fold qw qh. change (inject_Z 1) with 1. unfold u in *. lra. }
  rewrite <- Zlt_Qlt in UB, LB. lia.
Qed.

End PreviewFacts.

(* ================================================================== *)
(** ** Running the handlers *)
(* ================================================================== *)

Ltac split_all := repeat match goal with |- _ /\ _ => split end.

Section Handlers.

Context {P : Pillow}.

Open Scope string_scope.

Arguments preview_size : simpl never.

Ltac run_all :=
  unfold bind, get, lift, new, modify, ret, try_except, messagebox,
    status_label_config, self_original_image, self_processed_image,
    self_display_image, self_filter_buttons.

Lemma same_session_refl (s : App) : same_session s s.
Proof. unfold same_session. split_all; auto. Qed.

Lemma same_session_trans (s1 s2 s3 : App) :
  same_session s1 s2 -> same_session s2 s3 -> same_session s1 s3.
Proof.
  unfold same_session. intros H1 H2.
  repeat match goal with H : _ /\ _ |- _ => destruct H end.
  split_all; try congruence. lia.
Qed.

Lemma new_run {A : Type} (r : result A) (s : App) :
  new r s = match r with
            | Ok v => (Ok {| oid := next_oid s; val := v |},
                       set_next_oid (S (next_oid s)) s)
            | Raise e => (Raise e, s)
            end.
Proof. reflexivity. Qed.

Lemma set_next_oid_same (s : App) : set_next_oid (next_oid s) s = s.
Proof. destruct s; reflexivity. Qed.

(** [display_image_on_canvas] touches the preview only. *)
Lemma display_frame (img : obj image) (s : App) :
  same_session s (snd (display_image_on_canvas img s)).
Proof.
  unfold display_image_on_canvas. run_all. cbn.
  destruct (preview_size _ _); cbn; [| apply same_session_refl].
  destruct (img_resize _ _ _); cbn; [| apply same_session_refl].
  destruct (ImageTk_PhotoImage _); cbn;
    unfold same_session; cbn; split_all; auto.
Qed.


(** The right-hand side of a filter handler computes [filter_pipeline] of
    the original's content and allocates along the way. *)
Lemma filter_expr_run (f : filter_id) (s : App) (o : obj image) :
  original_image s = Some o ->
  exists n, (next_oid s <= n)%nat /\
    filter_expr f s =
      match filter_pipeline f (val o) with
      | Ok v => (Ok {| oid := n; val := v |}, set_next_oid (S n) s)
      | Raise e => (Raise e, set_next_oid n s)
      end.
Proof.
  intros Ho.
  destruct f; cbn [filter_expr filter_pipeline];
    unfold black_white_expr, blur_expr, sharpen_expr, cartoon_expr,
      edge_detection_expr, black_white_of, blur_of, sharpen_of, cartoon_of,
      edge_detection_of, and_then; run_all; rewrite Ho; cbn;
    repeat match goal with
      | |- context [match ?r with Ok _ => _ | Raise _ => _ end] =>
          lazymatch r with
          | img_convert _ _ => destruct r eqn:?
          | img_filter _ _ => destruct r eqn:?
          | img_copy _ => destruct r eqn:?
          | img_quantize _ _ => destruct r eqn:?
          | ImageEnhance_Color _ => destruct r eqn:?
          | enhance _ _ => destruct r eqn:?
          end; cbn
      | |- context [if ?b then _ else _] => destruct b eqn:?; cbn
      end;
    try (eexists; split; [| reflexivity]; cbn; lia);
    try (exists (next_oid s); split; [lia | rewrite set_next_oid_same; reflexivity]).
Qed.

Lemma apply_filter_eq (f : filter_id) :
  apply_filter f = filter_handler (filter_expr f) (filter_name f).
Proof. destruct f; reflexivity. Qed.

(** One filter handler, start to end. *)
Lemma filter_handler_spec (f : filter_id) (s : App) (o : obj image) :
  original_image s = Some o ->
  exists n, (next_oid s <= n)%nat /\
    let s' := snd (apply_filter f s) in
    fst (apply_filter f s) = Ok tt /\
    original_image s' = Some o /\
    upload_btn s' = upload_btn s /\
    save_btn s' = save_btn s /\
    reset_btn s' = reset_btn s /\
    filter_buttons s' = filter_buttons s /\
    canvas_winfo s' = canvas_winfo s /\
    tracebacks s' = tracebacks s /\
    disk s' = disk s /\
    (next_oid s <= next_oid s')%nat /\
    match filter_pipeline f (val o) with
    | Ok v => processed_image s' = Some {| oid := n; val := v |} /\
              (n < next_oid s')%nat
    | Raise e => processed_image s' = processed_image s /\
                 dialogs s' = showerror "Error" ("Failed to apply filter: " ++ str e)
                              :: dialogs s /\
                 status_label s' = status_label s /\
                 display_image s' = display_image s /\
                 canvas_items s' = canvas_items s
    end.
Proof.
  intros Ho. destruct (filter_expr_run f s Ho) as [n [Hn E]].
  exists n. split; [exact Hn |].
  rewrite apply_filter_eq. unfold filter_handler, filter_try. run_all.
  cbv beta. rewrite Ho. cbv beta iota delta [truthy]. rewrite E.
  destruct (filter_pipeline f (val o)) as [v | e]; cbv beta iota.
  - cbn [processed_image set_processed_image].
    match goal with
    | |- context [display_image_on_canvas ?i ?t] =>
        pose proof (display_frame i t) as F;
        destruct (display_image_on_canvas i t) as [[[] | e] s3] eqn:D
    end; cbn [snd] in F; unfold same_session in F; cbn in F;
      repeat match goal with H : _ /\ _ |- _ => destruct H end;
      cbn; split_all; try congruence; try lia.
  - cbn. split_all; auto.
Qed.

Ltac with_display :=
  match goal with
  | |- context [display_image_on_canvas ?i ?t] =>
      let F := fresh "F" in
      let D := fresh "D" in
      pose proof (display_frame i t) as F;
      destruct (display_image_on_canvas i t) as [[[] | ?] ?] eqn:D;
      cbn [snd] in F; unfold same_session in F; cbn in F;
      repeat match goal with H : _ /\ _ |- _ => destruct H end
  end.

(** [reset_image] on a session that has an original. *)
Lemma reset_spec (s : App) (o : obj image) :
  original_image s = Some o ->
  let s' := snd (reset_image s) in
  same_controls s s' /\ (next_oid s <= next_oid s')%nat /\
  match img_copy (val o) with
  | Ok c => processed_image s' = Some {| oid := next_oid s; val := c |} /\
            (next_oid s < next_oid s')%nat
  | Raise e => reset_image s = (Raise e, s)
  end.
Proof.
  intros Ho. destruct (img_copy (val o)) as [c | e] eqn:Hc;
    unfold reset_image; run_all;
    repeat (progress (rewrite ?Ho, ?Hc; cbn -[display_image_on_canvas])).
  - with_display; cbn; unfold same_controls; cbn; split_all; try congruence; try lia.
  - unfold same_controls. split_all; auto.
Qed.


Lemma reset_empty (s : App) : original_image s = None -> reset_image s = (Ok tt, s).
Proof. intros H. unfold reset_image. run_all. rewrite H. reflexivity. Qed.

Lemma filter_empty (f : filter_id) (s : App) :
  original_image s = None -> apply_filter f s = (Ok tt, s).
Proof.
  intros H. rewrite apply_filter_eq. unfold filter_handler. run_all.
  rewrite H. reflexivity.
Qed.

(** [save_image] keeps both images and the controls. *)
Lemma save_frame (path : string) (s : App) :
  let s' := snd (save_image path s) in
  same_controls s s' /\ processed_image s' = processed_image s /\
  next_oid s' = next_oid s /\ fst (save_image path s) = Ok tt.
Proof.
  unfold save_image. run_all. cbv beta.
  destruct (processed_image s) as [p |] eqn:Hp; cbn.
  - destruct (truthy_str path); cbn.
    + rewrite Hp. cbn. unfold Image_save.
      destruct (img_save _ _ _) as [[[] | e] d]; cbn;
        unfold same_controls; cbn; split_all; auto.
    + rewrite Hp. unfold same_controls. split_all; auto.
  - rewrite Hp. unfold same_controls. split_all; auto.
Qed.

(** The body of the [try] of [upload_image], case by case. *)
Lemma upload_try_spec (path : string) (s : App) :
  let s' := snd (upload_image_try path s) in
  let n := next_oid s in
  match Image_open (disk s) path with
  | Raise e => upload_image_try path s = (Raise e, s)
  | Ok i =>
      original_image s' = Some {| oid := n; val := i |} /\
      upload_btn s' = upload_btn s /\ reset_btn s' = reset_btn s /\
      disk s' = disk s /\ tracebacks s' = tracebacks s /\
      dialogs s' = dialogs s /\ canvas_winfo s' = canvas_winfo s /\
      match img_copy i with
      | Raise e =>
          upload_image_try path s =
            (Raise e, set_original_image (Some {| oid := n; val := i |})
                        (set_next_oid (S n) s))
      | Ok c =>
          processed_image s' = Some {| oid := S n; val := c |} /\
          (S (S n) <= next_oid s')%nat /\
          match filter_buttons s with
          | Some bs => filter_buttons s' = Some (enable bs) /\
                       save_btn s' = config_state NORMAL (save_btn s)
          | None => filter_buttons s' = None /\ save_btn s' = save_btn s /\
                    exists e, fst (upload_image_try path s) = Raise e
          end
      end
  end.
Proof.
  destruct (Image_open (disk s) path) as [i | e] eqn:Ho;
    [destruct (img_copy i) as [c | e] eqn:Hc;
       [destruct (filter_buttons s) as [bs |] eqn:Hb |] |];
    unfold upload_image_try; run_all;
    repeat (progress (rewrite ?Ho, ?Hc, ?Hb; cbn -[display_image_on_canvas]));
    try reflexivity.
  - with_display; cbn; split_all; try congruence; try lia.
  - split_all; eauto.
  - split_all; auto.
Qed.

Lemma upload_cancel (s : App) : upload_image "" s = (Ok tt, s).
Proof. reflexivity. Qed.

(** [upload_image] never lets an exception out, and reports each one. *)
Lemma upload_reports (path : string) (s : App) :
  fst (upload_image path s) = Ok tt /\
  forall e s1, truthy_str path = true ->
    upload_image_try path s = (Raise e, s1) ->
    upload_image path s =
      (Ok tt, set_dialogs (showerror "Error" ("Failed to load image: " ++ str e)
                           :: dialogs s1) s1).
Proof.
  unfold upload_image. destruct (truthy_str path); [| split; [reflexivity | discriminate]].
  unfold try_except, messagebox, modify.
  destruct (upload_image_try path s) as [[[] | e] s1]; split; try reflexivity.
  - intros ? ? _ H. discriminate H.
  - intros e' s' _ H. inversion H. reflexivity.
Qed.

Lemma same_controls_refl (s : App) : same_controls s s.
Proof. unfold same_controls. split_all; auto. Qed.

Lemma same_controls_trans (s1 s2 s3 : App) :
  same_controls s1 s2 -> same_controls s2 s3 -> same_controls s1 s3.
Proof.
  unfold same_controls. intros H1 H2.
  repeat match goal with H : _ /\ _ |- _ => destruct H end.
  split_all; congruence.
Qed.

(** What the [except] clause and the status line leave of the [try]. *)
Lemma upload_state (path : string) (s : App) :
  truthy_str path = true ->
  let t := snd (upload_image_try path s) in
  let s' := snd (upload_image path s) in
  original_image s' = original_image t /\
  processed_image s' = processed_image t /\
  upload_btn s' = upload_btn t /\ save_btn s' = save_btn t /\
  reset_btn s' = reset_btn t /\ filter_buttons s' = filter_buttons t /\
  next_oid s' = next_oid t.
Proof.
  intros Hp. unfold upload_image. rewrite Hp.
  unfold try_except, messagebox, modify.
  destruct (upload_image_try path s) as [[[] | e] s1]; cbn; split_all; reflexivity.
Qed.

(** Two invariants of every callback: held objects stay allocated, and a
    session that is still without an original has its controls untouched. *)
Lemma run_command_inv (c : command) (answer : string) (s : App) :
  let s' := snd (run_command c answer s) in
  (allocated s -> allocated s') /\
  (original_image s' = None -> same_controls s s').
Proof.
  assert (FILTER : forall f,
    let s' := snd (apply_filter f s) in
    (allocated s -> allocated s') /\
    (original_image s' = None -> same_controls s s')).
  { intros f. destruct (original_image s) as [o |] eqn:Ho.
    - destruct (filter_handler_spec f s Ho)
        as [n [Hn [_ [Eo [Eu [Es [Er [Ef [_ [_ [_ [Hle Hm]]]]]]]]]]]].
      cbv zeta. split.
      + intros [A1 A2]. split; intros x Hx.
        * rewrite Eo in Hx. inversion Hx; subst x.
          specialize (A1 o Ho). lia.
        * destruct (filter_pipeline f (val o)).
          -- destruct Hm as [Hp Hlt]. rewrite Hp in Hx. inversion Hx; subst x. exact Hlt.
          -- destruct Hm as [Hp _]. rewrite Hp in Hx. specialize (A2 x Hx). lia.
      + intros Hn'. rewrite Eo in Hn'. discriminate Hn'.
    - rewrite (filter_empty f s Ho). cbn. split; [auto | intros _; apply same_controls_refl]. }
  destruct c; cbn [run_command];
    try (apply (FILTER BlackWhite)); try (apply (FILTER Blur));
    try (apply (FILTER Sharpen)); try (apply (FILTER Cartoon));
    try (apply (FILTER EdgeDetection)).
  - (* upload *)
    destruct (truthy_str answer) eqn:Hp.
    2:{ unfold upload_image. rewrite Hp. cbn.
        split; [auto | intros _; apply same_controls_refl]. }
    destruct (upload_state answer s Hp) as [Uo [Up [Uu [Us [Ur [Uf Un]]]]]].
    pose proof (upload_try_spec answer s) as T. cbv zeta in T.
    cbv zeta. unfold allocated, same_controls.
    rewrite Uo, Up, Uu, Us, Ur, Uf, Un.
    destruct (Image_open (disk s) answer) as [i | e].
    + destruct T as [To [Tu [Tr [_ [_ [_ [_ T]]]]]]].
      split.
      * intros [A1 A2]. destruct (img_copy i) as [cp | e].
        -- destruct T as [Tp [Tn _]]. rewrite To, Tp.
           split; intros x Hx; inversion Hx; subst x; cbn [oid]; lia.
        -- rewrite T. cbn. split; intros x Hx.
           ++ inversion Hx; subst x; cbn; lia.
           ++ specialize (A2 x Hx). lia.
      * rewrite To. discriminate.
    + rewrite T. cbn. split; [auto | intros _; split_all; auto].
  - (* save *)
    destruct (save_frame answer s) as [[So [Su [Ss [Sr Sf]]]] [Sp [Sn _]]].
    cbv zeta. unfold allocated, same_controls.
    rewrite So, Sp, Su, Ss, Sr, Sf, Sn. split; [auto | intros _; split_all; auto].
  - (* reset *)
    destruct (original_image s) as [o |] eqn:Ho.
    + destruct (reset_spec s Ho) as [[Ro [Ru [Rs [Rr Rf]]]] [Rn Rm]].
      cbv zeta. split.
      * intros [A1 A2]. split; intros x Hx.
        -- rewrite Ro, Ho in Hx. inversion Hx; subst x. specialize (A1 o Ho). lia.
        -- destruct (img_copy (val o)).
           ++ destruct Rm as [Rp Rlt]. rewrite Rp in Hx. inversion Hx; subst x. exact Rlt.
           ++ rewrite Rm in Hx. cbn in Hx. specialize (A2 x Hx). lia.
      * intros Hn. rewrite Ro, Ho in Hn. discriminate Hn.
    + rewrite (reset_empty s Ho). cbn. split; [auto | intros _; apply same_controls_refl].
Qed.

Lemma step_inv (ev : event) (s : App) :
  (allocated s -> allocated (step ev s)) /\
  (original_image (step ev s) = None -> same_controls s (step ev s)).
Proof.
  destruct ev as [c answer | w h]; cbn [step].
  - destruct (widget c s) as [b |]; [| split; [auto | intros _; apply same_controls_refl]].
    destruct (state b); [| split; [auto | intros _; apply same_controls_refl]].
    pose proof (run_command_inv (btn_command b) answer s) as H. cbv zeta in H.
    destruct (run_command (btn_command b) answer s) as [[[] | e] s1]; cbn [snd] in H;
      (split; [intros A; destruct H as [H _]; specialize (H A);
                 destruct H as [H1 H2]; split; intros x Hx;
                 [apply (H1 x Hx) | apply (H2 x Hx)]
              | intros Hn; destruct H as [_ H]; exact (H Hn)]).
  - split; [intros [A1 A2]; split; intros x Hx; [apply (A1 x Hx) | apply (A2 x Hx)]
           | intros _; unfold same_controls; cbn; split_all; auto].
Qed.

Lemma mainloop_inv (evs : list event) (s : App) :
  (allocated s -> allocated (mainloop evs s)) /\
  (original_image (mainloop evs s) = None -> same_controls s (mainloop evs s)).
Proof.
  revert s. induction evs as [| ev evs IH]; intros s.
  - cbn. split; [auto | intros _; apply same_controls_refl].
  - change (mainloop (ev :: evs) s) with (mainloop evs (step ev s)).
    destruct (IH (step ev s)) as [I1 I2]. destruct (step_inv ev s) as [S1 S2].
    split; [auto |].
    intros Hn. pose proof (I2 Hn) as C.
    apply same_controls_trans with (step ev s); [| exact C].
    apply S2. destruct C as [Co _]. congruence.
Qed.


Lemma enable_length (bs : list Button) : List.length (enable bs) = List.length bs.
Proof. unfold enable. apply length_map. Qed.

Lemma run_command_controls (c : command) (answer : string) (s : App) :
  controls_built s -> controls_built (snd (run_command c answer s)).
Proof.
  intros [Bu [Br [bs [Bf Bl]]]].
  assert (KEEP : forall s', upload_btn s' = upload_btn s -> reset_btn s' = reset_btn s ->
                   filter_buttons s' = filter_buttons s -> controls_built s').
  { intros s' E1 E2 E3. unfold controls_built. rewrite E1, E2, E3. eauto. }
  assert (FILTER : forall f, controls_built (snd (apply_filter f s))).
  { intros f. destruct (original_image s) as [o |] eqn:Ho.
    - destruct (filter_handler_spec f s Ho)
        as [n [_ [_ [_ [Eu [_ [Er [Ef _]]]]]]]]. apply KEEP; assumption.
    - rewrite (filter_empty f s Ho). apply KEEP; reflexivity. }
  destruct c; cbn [run_command];
    try (apply (FILTER BlackWhite)); try (apply (FILTER Blur));
    try (apply (FILTER Sharpen)); try (apply (FILTER Cartoon));
    try (apply (FILTER EdgeDetection)).
  - destruct (truthy_str answer) eqn:Hp.
    2:{ unfold upload_image. rewrite Hp. apply KEEP; reflexivity. }
    destruct (upload_state answer s Hp) as [_ [_ [Uu [_ [Ur [Uf _]]]]]].
    pose proof (upload_try_spec answer s) as T. cbv zeta in T.
    unfold controls_built. rewrite Uu, Ur, Uf.
    destruct (Image_open (disk s) answer) as [i | e].
    + destruct T as [_ [Tu [Tr [_ [_ [_ [_ T]]]]]]]. rewrite Tu, Tr.
      split_all; auto.
      destruct (img_copy i) as [cp | e].
      * destruct T as [_ [_ T]]. rewrite Bf in T. destruct T as [T _].
        exists (enable bs). rewrite enable_length. auto.
      * rewrite T. cbn. eauto.
    + rewrite T. cbn. eauto.
  - destruct (save_frame answer s) as [[_ [Su [_ [Sr Sf]]]] _]. apply KEEP; assumption.
  - destruct (original_image s) as [o |] eqn:Ho.
    + destruct (reset_spec s Ho) as [[_ [Ru [_ [Rr Rf]]]] _]. apply KEEP; assumption.
    + rewrite (reset_empty s Ho). apply KEEP; reflexivity.
Qed.

Lemma mainloop_controls (evs : list event) (s : App) :
  controls_built s -> controls_built (mainloop evs s).
Proof.
  revert s. induction evs as [| ev evs IH]; intros s H; [exact H |].
  change (mainloop (ev :: evs) s) with (mainloop evs (step ev s)).
  apply IH. destruct ev as [c answer | w h]; cbn [step].
  - destruct (widget c s) as [b |]; [| exact H].
    destruct (state b); [| exact H].
    pose proof (run_command_controls (btn_command b) answer H) as K.
    destruct (run_command (btn_command b) answer s) as [[[] | e] s1]; exact K.
  - exact H.
Qed.

Lemma init_controls (d : fs) : controls_built (init d).
Proof.
  unfold controls_built. split_all; try reflexivity.
  eexists. split; reflexivity.
Qed.

(** The control states of the session right after start-up. *)
Lemma init_control_states (d : fs) :
  control_state UploadBtn (init d) = Some NORMAL /\
  control_state ResetBtn (init d) = Some NORMAL /\
  control_state SaveBtn (init d) = Some DISABLED /\
  forall f, control_state (FilterBtn f) (init d) = Some DISABLED.
Proof. split_all; try reflexivity. intros f; destruct f; reflexivity. Qed.

Lemma control_state_same (s s' : App) (c : control) :
  same_controls s s' -> control_state c s' = control_state c s.
Proof.
  intros [_ [Eu [Es [Er Ef]]]]. unfold control_state.
  destruct c; cbn [widget]; rewrite ?Eu, ?Es, ?Er, ?Ef; reflexivity.
Qed.

Lemma enabled_nth (bs : list Button) (k : nat) :
  (k < List.length bs)%nat ->
  option_map state (nth_error (enable bs) k) = Some NORMAL.
Proof.
  intros H. unfold enable. rewrite nth_error_map.
  destruct (nth_error bs k) eqn:E; [reflexivity |].
  apply nth_error_None in E. lia.
Qed.

(** If Image.open raises, nothing but the dialog changes. *)
Lemma upload_open_failure (path : string) (s : App) (e : exn) :
  truthy_str path = true ->
  Image_open (disk s) path = Raise e ->
  upload_image path s =
    (Ok tt, set_dialogs (showerror "Error" ("Failed to load image: " ++ str e)
                         :: dialogs s) s).
Proof.
  intros Hp Ho. pose proof (upload_try_spec path s) as T. cbv zeta in T.
  rewrite Ho in T. apply (proj2 (upload_reports path s) e s Hp T).
Qed.

End Handlers.

(* ================================================================== *)
(** ** The handlers case by case, and the event loop *)
(* ================================================================== *)

Ltac run_more :=
  unfold bind, get, lift, new, modify, ret, try_except, messagebox,
    status_label_config, self_original_image, self_processed_image,
    self_display_image, self_filter_buttons.

Ltac frame_display :=
  match goal with
  | |- context [display_image_on_canvas ?i ?t] =>
      let F := fresh "F" in
      pose proof (display_frame i t) as F;
      destruct (display_image_on_canvas i t) as [[[] | ?] ?];
      cbn [snd] in F; unfold same_session in F; cbn in F;
      repeat match goal with H : _ /\ _ |- _ => destruct H end
  end.

Section SessionFacts.

Context {P : Pillow}.

Open Scope string_scope.

Arguments preview_size : simpl never.

(** [display_image_on_canvas] either draws exactly one item or leaves the
    canvas as it was. *)
Lemma display_cases (img : obj image) (s : App) :
  let r := display_image_on_canvas img s in
  same_session s (snd r) /\
  match fst r with
  | Ok _ => exists d, display_image (snd r) = Some d /\
                      canvas_items (snd r) = [centred s d]
  | Raise _ => display_image (snd r) = display_image s /\
               canvas_items (snd r) = canvas_items s
  end.
Proof.
  cbv zeta. split; [apply display_frame |].
  unfold display_image_on_canvas. run_more. cbn.
  destruct (preview_size _ _); cbn; [| auto].
  destruct (img_resize _ _ _); cbn; [| auto].
  destruct (ImageTk_PhotoImage _); cbn; [| auto].
  eexists. split; reflexivity.
Qed.

(** A filter handler ends in one of two ways. *)
Lemma filter_preview_cases (f : filter_id) (s : App) (o : obj image) :
  original_image s = Some o ->
  let s' := snd (apply_filter f s) in
  (status_label s' = {| label_text := "Filter applied: " ++ filter_name f;
                        label_fg := "blue" |} /\
   dialogs s' = dialogs s /\
   (exists v, filter_pipeline f (val o) = Ok v) /\
   exists d, display_image s' = Some d /\ canvas_items s' = [centred s d]) \/
  (status_label s' = status_label s /\
   (exists m, dialogs s' = showerror "Error" ("Failed to apply filter: " ++ m)
                           :: dialogs s) /\
   display_image s' = display_image s /\ canvas_items s' = canvas_items s).
Proof.
  intros Ho. destruct (filter_expr_run f s Ho) as [n [Hn E]].
  rewrite apply_filter_eq. unfold filter_handler, filter_try. run_more.
  cbv beta. rewrite Ho. cbv beta iota delta [truthy]. rewrite E.
  destruct (filter_pipeline f (val o)) as [v | e]; cbv beta iota.
  - cbn [processed_image set_processed_image].
    match goal with
    | |- context [display_image_on_canvas ?i ?t] =>
        pose proof (display_cases i t) as FC; cbv zeta in FC;
        destruct FC as [F C];
        destruct (display_image_on_canvas i t) as [[[] | e] s3]
    end; cbn [fst snd] in F, C; unfold same_session in F; cbn in F;
      repeat match goal with H : _ /\ _ |- _ => destruct H end; cbn.
    + left. destruct C as [d [C1 C2]]. split_all; eauto.
    + right. cbn in *. split_all; try congruence. exists (str e). congruence.
  - cbn. right. split_all; eauto.
Qed.

(** [reset_image] touches the processed image and the preview only. *)
Lemma reset_frame (s : App) :
  let s' := snd (reset_image s) in
  same_controls s s' /\ disk s' = disk s /\ dialogs s' = dialogs s /\
  tracebacks s' = tracebacks s /\ canvas_winfo s' = canvas_winfo s /\
  (processed_image s <> None -> processed_image s' <> None).
Proof.
  destruct (original_image s) as [o |] eqn:Ho.
  2:{ rewrite (reset_empty s Ho). cbn. split_all; auto. apply same_controls_refl. }
  destruct (img_copy (val o)) as [c | e] eqn:Hc;
    unfold reset_image; run_more;
    repeat (progress (rewrite ?Ho, ?Hc; cbn -[display_image_on_canvas])).
  - frame_display; cbn; unfold same_controls; cbn; split_all; try congruence;
      intros _; discriminate.
  - unfold same_controls. split_all; auto.
Qed.

(** The [try] of [upload_image] and what the [except] clause adds. *)
Lemma upload_final (path : string) (s : App) :
  truthy_str path = true ->
  upload_image path s =
    match upload_image_try path s with
    | (Ok _, t) => (Ok tt, t)
    | (Raise e, t) =>
        (Ok tt, set_dialogs (showerror "Error" ("Failed to load image: " ++ str e)
                             :: dialogs t) t)
    end.
Proof.
  intros Hp. unfold upload_image. rewrite Hp. unfold try_except, messagebox, modify.
  destruct (upload_image_try path s) as [[[] | e] t]; reflexivity.
Qed.

Lemma widgets_kept (s s' : App) :
  upload_btn s' = upload_btn s -> save_btn s' = save_btn s ->
  reset_btn s' = reset_btn s -> filter_buttons s' = filter_buttons s ->
  forall ctl, match widget ctl s with
              | None => widget ctl s' = None
              | Some b => widget ctl s' = Some b \/
                          widget ctl s' = Some (config_state NORMAL b)
              end.
Proof.
  intros Eu Es Er Ef ctl.
  assert (E : widget ctl s' = widget ctl s)
    by (destruct ctl; cbn [widget]; rewrite ?Eu, ?Es, ?Er, ?Ef; reflexivity).
  rewrite E. destruct (widget ctl s); auto.
Qed.

Lemma effect_skip (c : command) (s : App) : effect c s (Ok tt, s).
Proof.
  unfold effect. cbn [fst snd]. split_all; auto.
  apply widgets_kept; reflexivity.
Qed.

Lemma effect_filter (f : filter_id) (s : App) :
  effect (command_of (FilterBtn f)) s (apply_filter f s).
Proof.
  destruct (original_image s) as [o |] eqn:Ho.
  2:{ rewrite (filter_empty f s Ho). apply effect_skip. }
  destruct (filter_handler_spec f s Ho)
    as [n [_ [R [Eo [Eu [Es [Er [Ef [Ew [Et [Ed [_ Hm]]]]]]]]]]]].
  pose proof (filter_preview_cases f s Ho) as C. cbv zeta in C.
  unfold effect. split_all; try congruence.
  - apply widgets_kept; assumption.
  - destruct (filter_pipeline f (val o)).
    + destruct Hm as [Hp _]. rewrite Hp. discriminate.
    + destruct Hm as [Hp _]. rewrite Hp. auto.
  - left. exact Es.
  - destruct C as [[_ [D _]] | [_ [[m D] _]]]; [left; exact D | right].
    eexists. split; [exact D | discriminate].
Qed.

Lemma effect_reset (s : App) : effect cmd_reset_image s (reset_image s).
Proof.
  destruct (reset_frame s) as [[Eo [Eu [Es [Er Ef]]]] [Ed [Eg [Et [Ew Ep]]]]].
  unfold effect. split_all; try congruence; auto.
  apply widgets_kept; assumption.
Qed.

Lemma effect_save (path : string) (s : App) : effect cmd_save_image s (save_image path s).
Proof.
  unfold save_image. run_more. cbv beta.
  destruct (processed_image s) as [p |] eqn:Hp; cbn.
  - destruct (truthy_str path); cbn.
    + rewrite Hp. cbn. unfold Image_save.
      destruct (img_save _ _ _) as [[[] | e] d]; cbn;
        unfold effect; cbn [fst snd]; cbn; split_all; try congruence; auto;
        try (apply widgets_kept; reflexivity);
        try (rewrite Hp; discriminate);
        right; eexists; (split; [reflexivity | discriminate]).
    + rewrite ?Hp. apply effect_skip.
  - rewrite ?Hp. unfold effect; cbn [fst snd]; cbn; split_all; try congruence; auto.
    + apply widgets_kept; reflexivity.
    + right. eexists. split; [reflexivity | auto].
Qed.

Lemma nth_error_enable (bs : list Button) (k : nat) :
  nth_error (enable bs) k = option_map (config_state NORMAL) (nth_error bs k).
Proof. unfold enable. apply nth_error_map. Qed.

Lemma effect_upload (path : string) (s : App) :
  effect cmd_upload_image s (upload_image path s).
Proof.
  destruct (truthy_str path) eqn:Hp.
  2:{ unfold upload_image. rewrite Hp. apply effect_skip. }
  rewrite (upload_final path s Hp).
  pose proof (upload_try_spec path s) as T. cbv zeta in T.
  destruct (Image_open (disk s) path) as [i | e].
  2:{ rewrite T. unfold effect; cbn [fst snd]; cbn. split_all; auto.
      - apply widgets_kept; reflexivity.
      - right. eexists. split; [reflexivity | discriminate]. }
  destruct T as [To [Tu [Tr [Td [Tt [Tg [Tw T]]]]]]].
  destruct (img_copy i) as [cp | e].
  2:{ rewrite T. unfold effect; cbn [fst snd]; cbn. split_all; auto; try congruence.
      - apply widgets_kept; reflexivity.
      - right. eexists. split; [reflexivity | discriminate]. }
  destruct T as [Tp [_ T]].
  assert (W : forall t, original_image t = original_image (snd (upload_image_try path s)) ->
            processed_image t = processed_image (snd (upload_image_try path s)) ->
            upload_btn t = upload_btn (snd (upload_image_try path s)) ->
            save_btn t = save_btn (snd (upload_image_try path s)) ->
            reset_btn t = reset_btn (snd (upload_image_try path s)) ->
            filter_buttons t = filter_buttons (snd (upload_image_try path s)) ->
            disk t = disk (snd (upload_image_try path s)) ->
            tracebacks t = tracebacks (snd (upload_image_try path s)) ->
            canvas_winfo t = canvas_winfo (snd (upload_image_try path s)) ->
            (dialogs t = dialogs s \/
             exists m, dialogs t = showerror "Error" m :: dialogs s) ->
            effect cmd_upload_image s (Ok tt, t)).
  { intros t Eo Ep Eu Es Er Ef Ed Et Ew Eg.
    unfold effect; cbn [fst snd]. split_all; try congruence.
    - intros ctl. destruct ctl; cbn [widget].
      + left. congruence.
      + destruct (filter_buttons s) as [bs |].
        * destruct T as [_ Ts]. right. congruence.
        * destruct T as [_ [Ts _]]. left. congruence.
      + left. congruence.
      + rewrite Ef. destruct (filter_buttons s) as [bs |].
        * destruct T as [Tf _]. rewrite Tf, nth_error_enable.
          destruct (nth_error bs (filter_index f)); cbn; auto.
        * destruct T as [Tf _]. rewrite Tf. reflexivity.
    - right. rewrite Ep, Tp. discriminate.
    - destruct Eg as [Eg | [m Eg]]; [left; exact Eg | right].
      eexists. split; [exact Eg | discriminate]. }
  destruct (upload_image_try path s) as [[[] | e] t]; cbn [snd] in *.
  - apply W; auto.
  - apply W; cbn; auto. right. eexists. rewrite Tg. reflexivity.
Qed.

(** Every callback behaves as [effect] says. *)
Lemma run_command_effect (ctl : control) (answer : string) (s : App) :
  effect (command_of ctl) s (run_command (command_of ctl) answer s).
Proof.
  destruct ctl as [| | | f]; cbn [command_of run_command].
  - apply effect_upload.
  - apply effect_save.
  - apply effect_reset.
  - pose proof (effect_filter f s) as E. destruct f; exact E.
Qed.

(** *** The event loop on wired sessions *)

Lemma wired_init (d : fs) : wired (init d).
Proof.
  intros c. destruct c as [| | | f]; [| | | destruct f];
    eexists; split; reflexivity.
Qed.

Lemma wired_kept (s s' : App) :
  (forall ctl, match widget ctl s with
               | None => widget ctl s' = None
               | Some b => widget ctl s' = Some b \/
                           widget ctl s' = Some (config_state NORMAL b)
               end) ->
  wired s -> wired s'.
Proof.
  intros K W c. destruct (W c) as [b [Hb Hc]]. specialize (K c). rewrite Hb in K.
  destruct K as [K | K]; rewrite K; eexists; split; try reflexivity; exact Hc.
Qed.

Lemma step_press_wired (ctl : control) (answer : string) (s : App) :
  wired s ->
  step (Press ctl answer) s =
    match control_state ctl s with
    | Some NORMAL => settle (run_command (command_of ctl) answer s)
    | _ => s
    end.
Proof.
  intros W. destruct (W ctl) as [b [Hb Hc]].
  unfold control_state. cbn [step]. rewrite Hb. cbn [option_map].
  rewrite Hc. destruct (state b); [| reflexivity].
  unfold settle. destruct (run_command _ _ _) as [[[] | e] s']; reflexivity.
Qed.

Lemma settle_widget (r : result unit * App) (ctl : control) :
  widget ctl (settle r) = widget ctl (snd r).
Proof. destruct r as [[[] | e] s']; destruct ctl; reflexivity. Qed.

Lemma step_wired (ev : event) (s : App) : wired s -> wired (step ev s).
Proof.
  intros W. destruct ev as [ctl answer | w h].
  - rewrite (step_press_wired ctl answer W).
    destruct (control_state ctl s) as [[|] |]; try exact W.
    destruct (run_command_effect ctl answer s) as [K _].
    apply wired_kept with (s := s); [| exact W].
    intros c. rewrite settle_widget. apply K.
  - apply wired_kept with (s := s); [| exact W].
    apply widgets_kept; reflexivity.
Qed.

Lemma step_save_gated (ev : event) (s : App) :
  wired s -> save_gated s -> save_gated (step ev s).
Proof.
  intros W [G1 G2]. destruct ev as [ctl answer | w h].
  2:{ split; [exact G1 | exact G2]. }
  rewrite (step_press_wired ctl answer W).
  destruct (control_state ctl s) as [[|] |] eqn:Hc; try (split; assumption).
  destruct (run_command_effect ctl answer s)
    as [_ [_ [_ [Kp [Ks [Kd _]]]]]].
  destruct (run_command (command_of ctl) answer s) as [r s'] eqn:R.
  cbn [snd] in Kp, Ks, Kd.
  assert (D : forallb (fun d => negb (is_warning d)) (dialogs s') = true).
  { destruct Kd as [Kd | [d [Kd Kw]]]; rewrite Kd; [exact G2 |].
    cbn [forallb]. rewrite G2, andb_true_r.
    destruct (is_warning d) eqn:Wd; [exfalso | reflexivity].
    destruct (Kw eq_refl) as [Kc Kn].
    destruct ctl as [| | | f]; try discriminate Kc; [| destruct f; discriminate Kc].
    unfold control_state in Hc. cbn in Hc. inversion Hc as [Hst].
    exact (G1 Hst Kn). }
  assert (S : state (save_btn s') = NORMAL -> processed_image s' <> None).
  { destruct Ks as [Ks | Ks]; [| auto]. rewrite Ks. auto. }
  destruct r as [[] | e]; cbn [settle]; split; assumption.
Qed.

Lemma mainloop_wired (evs : list event) (s : App) :
  wired s -> save_gated s ->
  wired (mainloop evs s) /\ save_gated (mainloop evs s).
Proof.
  revert s. induction evs as [| ev evs IH]; intros s W G; [auto |].
  change (mainloop (ev :: evs) s) with (mainloop evs (step ev s)).
  apply IH; [apply step_wired | apply step_save_gated]; assumption.
Qed.

Lemma reachable_wired (s : App) : reachable s -> wired s /\ save_gated s.
Proof.
  intros [d [evs ->]]. apply mainloop_wired; [apply wired_init |].
  split; [discriminate | reflexivity].
Qed.

Lemma reachable_controls (s : App) : reachable s -> controls_built s.
Proof. intros [d [evs ->]]. apply mainloop_controls, init_controls. Qed.

Lemma settle_fields (r : result unit * App) :
  original_image (settle r) = original_image (snd r) /\
  processed_image (settle r) = processed_image (snd r) /\
  disk (settle r) = disk (snd r) /\
  dialogs (settle r) = dialogs (snd r).
Proof. destruct r as [[[] | e] s']; split_all; reflexivity. Qed.

Lemma command_of_onto (c : command) : exists ctl, c = command_of ctl.
Proof.
  destruct c;
    [exists UploadBtn | exists SaveBtn | exists ResetBtn
    | exists (FilterBtn BlackWhite) | exists (FilterBtn Blur)
    | exists (FilterBtn Sharpen) | exists (FilterBtn Cartoon)
    | exists (FilterBtn EdgeDetection)]; reflexivity.
Qed.

(** An event keeps every control or enables it, wired or not. *)
Lemma step_widgets (ev : event) (s : App) (ctl : control) :
  match widget ctl s with
  | None => widget ctl (step ev s) = None
  | Some b => widget ctl (step ev s) = Some b \/
              widget ctl (step ev s) = Some (config_state NORMAL b)
  end.
Proof.
  assert (SAME : match widget ctl s with
                 | None => widget ctl s = None
                 | Some b => widget ctl s = Some b \/
                             widget ctl s = Some (config_state NORMAL b)
                 end) by (destruct (widget ctl s); auto).
  destruct ev as [c answer | w h]; cbn [step].
  - destruct (widget c s) as [b |]; [| exact SAME].
    destruct (state b); [| exact SAME].
    destruct (command_of_onto (btn_command b)) as [c' ->].
    destruct (run_command_effect c' answer s) as [K _]. specialize (K ctl).
    destruct (run_command (command_of c') answer s) as [[[] | e] s']; cbn [snd] in K;
      [exact K |].
    destruct (widget ctl s); destruct ctl; exact K.
  - apply widgets_kept; reflexivity.
Qed.

(** [save_image] with a processed image, by what the dialog returned and
    what the encoder did; [d] is the file system the library leaves. *)
Lemma save_run (path : string) (s : App) (p : obj image) :
  processed_image s = Some p ->
  save_image path s =
    if truthy_str path then
      match img_save (val p) path (disk s) with
      | (Ok _, d) =>
          (Ok tt,
           set_status_label {| label_text := "Image saved: " ++ basename path;
                               label_fg := "green" |}
             (set_dialogs (showinfo "Success"
                             ("Image saved successfully to:" ++ newline ++ path)
                           :: dialogs s)
                (set_disk d s)))
      | (Raise e, d) =>
          (Ok tt, set_dialogs (showerror "Error" ("Failed to save image: " ++ str e)
                               :: dialogs s) (set_disk d s))
      end
    else (Ok tt, s).
Proof.
  intros Hp. unfold save_image. run_more. cbv beta. rewrite Hp. cbn [truthy].
  destruct (truthy_str path); [| reflexivity].
  rewrite Hp. cbv beta iota. unfold Image_save.
  destruct (img_save (val p) path (disk s)) as [[[] | e] d]; reflexivity.
Qed.

(** The [try] of [upload_image] when it runs to its end. *)
Lemma upload_try_ok (path : string) (s s' : App) :
  upload_image_try path s = (Ok tt, s') ->
  exists i c, Image_open (disk s) path = Ok i /\ img_copy i = Ok c /\
    original_image s' = Some {| oid := next_oid s; val := i |} /\
    processed_image s' = Some {| oid := S (next_oid s); val := c |} /\
    disk s' = disk s /\ dialogs s' = dialogs s /\
    status_label s' = {| label_text := "Image loaded: " ++ basename path;
                         label_fg := "green" |} /\
    exists d, display_image s' = Some d /\ canvas_items s' = [centred s d].
Proof.
  destruct (Image_open (disk s) path) as [i | e] eqn:Ho;
    [destruct (img_copy i) as [c | e] eqn:Hc;
       [destruct (filter_buttons s) as [bs |] eqn:Hb |] |];
    unfold upload_image_try; run_more;
    repeat (progress (rewrite ?Ho, ?Hc, ?Hb; cbn -[display_image_on_canvas]));
    try discriminate.
  match goal with
  | |- context [display_image_on_canvas ?o ?t] =>
      pose proof (display_cases o t) as FC; cbv zeta in FC;
      destruct FC as [F C];
      destruct (display_image_on_canvas o t) as [[[] | e] s3]
  end; cbn [fst snd] in F, C; [| discriminate].
  unfold same_session in F; cbn in F.
  repeat match goal with H : _ /\ _ |- _ => destruct H end.
  destruct C as [d [C1 C2]].
  intros E. inversion E; subst s'. cbn.
  exists i, c. split_all; try congruence; auto.
  exists d. split; [exact C1 |]. rewrite C2. unfold centred. cbn. congruence.
Qed.

End SessionFacts.

(* ================================================================== *)
(** ** The processed image along the event loop *)
(* ================================================================== *)

Section DerivedFacts.

Context {P : Pillow}.

Open Scope string_scope.







End DerivedFacts.

(* ================================================================== *)
(** ** TinyPillow satisfies the library facts *)
(* ================================================================== *)

Module TinyPillowFacts.

Import TinyPillow.
Open Scope string_scope.

Lemma t_load_inv (i j : timage) : t_load i = Ok j -> j = i.
Proof. unfold t_load. destruct (t_truncated i); intros H; inversion H; reflexivity. Qed.

Lemma tiny_copy_is_identical : copy_is_identical (P := tiny).
Proof. intros i j H. apply t_load_inv. exact H. Qed.

Lemma tiny_convert_to_own_mode_is_copy : convert_to_own_mode_is_copy (P := tiny).
Proof.
  intros m i H. cbn in *. unfold t_convert, t_load, and_then.
  destruct (t_truncated i); [reflexivity |].
  rewrite H, String.eqb_refl. reflexivity.
Qed.

Ltac t_cases :=
  repeat match goal with
    | H : context [if ?b then _ else _] |- _ => destruct b eqn:?
    | H : Ok _ = Ok _ |- _ => inversion H; clear H; subst
    | H : Raise _ = Ok _ |- _ => discriminate H
    | H : unsupported = Ok _ |- _ => discriminate H
    | H : (let '(_, _) := ?p in _) = _ |- _ => destruct p eqn:?
    end.

Lemma tiny_convert_sets_mode : convert_sets_mode (P := tiny).
Proof.
  intros m i j H. cbn in *. unfold t_convert, t_load, and_then in H.
  t_cases; cbn;
    repeat match goal with
      | E : String.eqb _ _ = true |- _ => apply String.eqb_eq in E
      end; congruence.
Qed.

Lemma tiny_filter_keeps_mode : filter_keeps_mode (P := tiny).
Proof.
  intros k i j H. cbn in *. unfold t_filter, t_load, and_then in H.
  t_cases; reflexivity.
Qed.

Lemma replicate_gray (l : list (list Z)) : Forall gray_pixel (map replicate l).
Proof.
  induction l as [| p l IH]; cbn; constructor; [| exact IH].
  exists (hd 0%Z p). reflexivity.
Qed.

Lemma tiny_L_to_RGB_is_gray : L_to_RGB_is_gray (P := tiny).
Proof.
  intros i j Hm H. cbn in *. unfold t_convert, t_load, and_then in H.
  destruct (t_truncated i); [discriminate H |].
  rewrite Hm in H. cbn in H.
  inversion H. cbn. apply replicate_gray.
Qed.

Lemma t_convert_size m i j : t_convert m i = Ok j -> t_size j = t_size i.
Proof.
  intros H. unfold t_convert, t_load, and_then in H. t_cases; reflexivity.
Qed.

Lemma tiny_sizes_kept : sizes_kept (P := tiny).
Proof.
  unfold sizes_kept. cbn. repeat split.
  - intros i j H. apply t_load_inv in H. congruence.
  - intros m i j H. apply (t_convert_size _ _ H).
  - intros k i j H. unfold t_filter, t_load, and_then in H. t_cases; congruence.
  - intros n i j H. unfold t_quantize, t_load, and_then in H. t_cases; reflexivity.
  - intros i [a b] x j H1 H2. unfold t_Color, and_then in H1.
    destruct (t_convert "L" i) as [g |]; [| discriminate H1].
    destruct (t_convert (t_mode i) g); [| discriminate H1].
    inversion H1; subst. unfold t_enhance in H2. inversion H2. reflexivity.
Qed.

End TinyPillowFacts.

(* ================================================================== *)
(** ** Properties of the application *)
(* ================================================================== *)

Section Properties.

Context {P : Pillow}.

Open Scope string_scope.


(** C2 (amended).  In a session that has an original image: when the
    transform of a filter handler raises, the processed image and the
    original keep their values and the modal error dialog "Failed to apply
    filter: ..." is shown; and whatever raises inside the [try], the handler
    returns normally after showing that dialog. *)
Theorem transform_failure_keeps_processed (f : filter_id) (s : App) (o : obj image) :
  original_image s = Some o ->
  let s' := snd (apply_filter f s) in
  (forall e, filter_pipeline f (val o) = Raise e ->
     processed_image s' = processed_image s /\
     original_image s' = original_image s /\
     dialogs s' = showerror "Error" ("Failed to apply filter: " ++ str e) :: dialogs s) /\
  (forall e s1, filter_try (filter_expr f) (filter_name f) s = (Raise e, s1) ->
     apply_filter f s =
       (Ok tt, set_dialogs (showerror "Error" ("Failed to apply filter: " ++ str e)
                            :: dialogs s1) s1)).
Proof.
  intros Ho. cbv zeta. split.
  - intros e He.
    destruct (filter_handler_spec f s Ho)
      as [n [_ [_ [Eo [_ [_ [_ [_ [_ [_ [_ [_ Hm]]]]]]]]]]]].
    rewrite He in Hm. destruct Hm as [Hp [Hd _]]. split_all; congruence.
  - intros e s1 Ht. rewrite apply_filter_eq. unfold filter_handler.
    unfold bind at 1. unfold get. rewrite Ho. cbn [truthy].
    unfold try_except. rewrite Ht. reflexivity.
Qed.

(** C4.  With a decodable original, the content that [apply_cartoon]
    computes is that of the five steps in the order of the specification:
    convert to RGB, quantize to 64 colours, convert to RGB, edge-enhance
    (EDGE_ENHANCE_MORE), saturation 1.2; the handler makes it the processed
    image.  The source's leading [copy()] and its skipping of the first
    conversion for an RGB image do not show, by the two library facts. *)
Theorem cartoon_steps_in_order (s : App) (o : obj image) :
  copy_is_identical ->
  convert_to_own_mode_is_copy ->
  original_image s = Some o ->
  (exists c, img_copy (val o) = Ok c) ->
  let s' := snd (apply_cartoon s) in
  cartoon_of (val o) = cartoon_spec (val o) /\
  (forall v, cartoon_spec (val o) = Ok v ->
     exists p, processed_image s' = Some p /\ val p = v) /\
  (forall e, cartoon_spec (val o) = Raise e ->
     processed_image s' = processed_image s).
Proof.
  intros Hcopy Hconv Ho [c Hc]. cbv zeta.
  assert (E : cartoon_of (val o) = cartoon_spec (val o)).
  { pose proof (Hcopy _ _ Hc) as Ec. subst c.
    unfold cartoon_of, cartoon_spec. rewrite Hc. cbn [and_then].
    destruct (String.eqb (img_mode (val o)) "RGB") eqn:Em; cbn [negb and_then].
    - apply String.eqb_eq in Em. rewrite (Hconv _ _ Em), Hc. reflexivity.
    - reflexivity. }
  split; [exact E |].
  destruct (filter_handler_spec Cartoon s Ho)
    as [n [_ [_ [_ [_ [_ [_ [_ [_ [_ [_ [_ Hm]]]]]]]]]]]].
  cbn [apply_filter filter_pipeline] in Hm. rewrite E in Hm. split.
  - intros v Hv. rewrite Hv in Hm. destruct Hm as [Hp _].
    eexists. split; [exact Hp | reflexivity].
  - intros e He. rewrite He in Hm. apply Hm.
Qed.


(** C8.  For every loaded image on which the transform succeeds, the
    processed image that the Grayscale handler and the Edge Detection
    handler set is an RGB image whose every pixel has equal R, G and B:
    both end by expanding a single-band image to RGB. *)
Theorem grayscale_and_edges_have_equal_channels
    (f : filter_id) (s : App) (o : obj image) (v : image) :
  convert_sets_mode ->
  filter_keeps_mode ->
  L_to_RGB_is_gray ->
  f = BlackWhite \/ f = EdgeDetection ->
  original_image s = Some o ->
  filter_pipeline f (val o) = Ok v ->
  exists p, processed_image (snd (apply_filter f s)) = Some p /\
    val p = v /\ img_mode (val p) = "RGB" /\
    Forall gray_pixel (img_data (val p)).
Proof.
  intros Hmode Hfilt Hgray Hf Ho Hv.
  destruct (filter_handler_spec f s Ho)
    as [n [_ [_ [_ [_ [_ [_ [_ [_ [_ [_ [_ Hm]]]]]]]]]]]].
  rewrite Hv in Hm. destruct Hm as [Hp _].
  eexists. split; [exact Hp |]. cbn [val]. split; [reflexivity |].
  destruct Hf as [-> | ->]; cbn [filter_pipeline] in Hv.
  - unfold black_white_of, and_then in Hv.
    destruct (img_convert "L" (val o)) as [g |] eqn:Eg; [| discriminate Hv].
    split; [exact (Hmode _ _ _ Hv) |].
    apply (Hgray g v); [exact (Hmode _ _ _ Eg) | exact Hv].
  - unfold edge_detection_of, and_then in Hv.
    destruct (img_convert "L" (val o)) as [g |] eqn:Eg; [| discriminate Hv].
    destruct (img_filter FIND_EDGES g) as [e |] eqn:Ee; [| discriminate Hv].
    split; [exact (Hmode _ _ _ Hv) |].
    apply (Hgray e v); [| exact Hv].
    rewrite (Hfilt _ _ _ Ee). exact (Hmode _ _ _ Eg).
Qed.

(** C10.  For every loaded original on which the transform succeeds, each
    of the five filter handlers sets a processed image of the original's
    width and height. *)
Theorem filters_keep_size (f : filter_id) (s : App) (o : obj image) (v : image) :
  sizes_kept ->
  original_image s = Some o ->
  filter_pipeline f (val o) = Ok v ->
  exists p, processed_image (snd (apply_filter f s)) = Some p /\
    val p = v /\ img_size (val p) = img_size (val o).
Proof.
  intros [Scopy [Sconv [Sfilt [Squant Senh]]]] Ho Hv.
  destruct (filter_handler_spec f s Ho)
    as [n [_ [_ [_ [_ [_ [_ [_ [_ [_ [_ [_ Hm]]]]]]]]]]]].
  rewrite Hv in Hm. destruct Hm as [Hp _].
  eexists. split; [exact Hp |]. cbn [val]. split; [reflexivity |].
  destruct f; cbn [filter_pipeline] in Hv;
    unfold black_white_of, blur_of, sharpen_of, cartoon_of, edge_detection_of,
      and_then in Hv;
    repeat match type of Hv with
      | match ?r with Ok _ => _ | Raise _ => _ end = _ =>
          let E := fresh "E" in destruct r eqn:E; [| discriminate Hv]
      end;
    repeat match goal with
      | H : (if ?b then _ else _) = Ok _ |- _ => destruct b
      | H : Ok _ = Ok _ |- _ => inversion H; clear H; subst
      | H : img_copy _ = Ok _ |- _ => apply Scopy in H
      | H : img_convert _ _ = Ok _ |- _ => apply Sconv in H
      | H : img_filter _ _ = Ok _ |- _ => apply Sfilt in H
      | H : img_quantize _ _ = Ok _ |- _ => apply Squant in H
      | H1 : ImageEnhance_Color _ = Ok ?en, H2 : enhance ?en _ = Ok _ |- _ =>
          pose proof (Senh _ _ _ _ H1 H2); clear H2
      end;
    congruence.
Qed.

(** C9 (amended).  In a session in which no image has been opened yet the
    upload and the reset controls are enabled and the save control and the
    five filter controls are disabled; once the [try] of [upload_image] has
    run to its end, all eight controls are enabled. *)
Theorem controls_gated_by_load (d : fs) (evs : list event) :
  let s := mainloop evs (init d) in
  (original_image s = None ->
     control_state UploadBtn s = Some NORMAL /\
     control_state ResetBtn s = Some NORMAL /\
     control_state SaveBtn s = Some DISABLED /\
     forall f, control_state (FilterBtn f) s = Some DISABLED) /\
  (forall path s', upload_image_try path s = (Ok tt, s') ->
     forall c, control_state c s' = Some NORMAL).
Proof.
  cbv zeta. split.
  - intros Hn. destruct (mainloop_inv evs (init d)) as [_ I]. specialize (I Hn).
    rewrite !(control_state_same _ I).
    split_all; try reflexivity. intros f.
    rewrite (control_state_same _ I). destruct f; reflexivity.
  - intros path s' Ht.
    pose proof (mainloop_controls evs (init_controls d)) as [Bu [Br [bs [Bf Bl]]]].
    pose proof (upload_try_spec path (mainloop evs (init d))) as T. cbv zeta in T.
    rewrite Ht in T. cbn [snd fst] in T.
    destruct (Image_open _ path) as [i | e]; [| discriminate T].
    destruct T as [_ [Tu [Tr [_ [_ [_ [_ T]]]]]]].
    destruct (img_copy i) as [cp | e]; [| discriminate T].
    destruct T as [_ [_ T]]. rewrite Bf in T. destruct T as [Tf Ts].
    intros c. unfold control_state. destruct c; cbn [widget option_map].
    + rewrite Tu, Bu. reflexivity.
    + rewrite Ts. reflexivity.
    + rewrite Tr, Br. reflexivity.
    + rewrite Tf. apply enabled_nth. rewrite Bl. destruct f; cbn; lia.
Qed.

End Properties.

(* ================================================================== *)
(** ** The preview renderer *)
(* ================================================================== *)

Section PreviewProperties.

Import Float64 Float64Facts PreviewFacts.

(** C6.  For every canvas and every image of positive size (at most 2^50
    pixels), [display_image_on_canvas] scales both sides by one factor, the
    least of the width fit, the height fit and 1.0; the size it hands to
    [resize] exceeds neither the image (no upscaling) nor the canvas; and,
    when the canvas is larger than the 20-pixel margin, the aspect ratio is
    kept up to the truncation of the two sides: the cross product
    [nw * h - nh * w] is at most the larger side. *)
Theorem preview_scale_is_min_fit (winfo : Z * Z) (w h : Z) :
  (1 <= w)%Z -> (1 <= h)%Z -> (w * h <= 2 ^ 50)%Z ->
  let canvas := canvas_dims winfo in
  exists (scale_w scale_h scale : float) (nw nh : Z),
    truediv (fst canvas - 20) w = Ok scale_w /\
    truediv (snd canvas - 20) h = Ok scale_h /\
    scale_factor canvas (w, h) = Ok scale /\
    (scale <= scale_w /\ scale <= scale_h /\ scale <= 1)%Q /\
    (scale = scale_w \/ scale = scale_h \/ scale = 1%Q) /\
    preview_size canvas (w, h) = Ok (nw, nh) /\
    nw = int (mul_int_float w scale) /\ nh = int (mul_int_float h scale) /\
    (nw <= w /\ nh <= h)%Z /\
    (nw <= fst canvas /\ nh <= snd canvas)%Z /\
    ((20 < fst canvas)%Z -> (20 < snd canvas)%Z ->
     (Z.abs (nw * h - nh * w) <= Z.max w h)%Z).
Proof.
  intros Hw Hh Hwh canvas.
  destruct (canvas_dims_ge winfo) as [Cw Ch]. fold canvas in Cw, Ch.
  destruct canvas as [cw ch]. cbn [fst snd] in *.
  assert (Bw : (1 <= w <= 2 ^ 50)%Z) by nia.
  assert (Bh : (1 <= h <= 2 ^ 50)%Z) by nia.
  set (scale_w := fl (inject_Z (cw - 20) / inject_Z w)).
  set (scale_h := fl (inject_Z (ch - 20) / inject_Z h)).
  set (scale := min3 scale_w scale_h 1%Q).
  destruct (min3_spec scale_w scale_h 1%Q) as [M1 [M2 [M3 M4]]]. fold scale in M1, M2, M3, M4.
  exists scale_w, scale_h, scale,
    (int (mul_int_float w scale)), (int (mul_int_float h scale)).
  assert (SF : scale_factor (cw, ch) (w, h) = Ok scale).
  { unfold scale_factor. rewrite !truediv_ok by assumption. reflexivity. }
  split; [apply truediv_ok; exact Hw |].
  split; [apply truediv_ok; exact Hh |].
  split; [exact SF |].
  split; [auto |]. split; [exact M4 |].
  split; [unfold preview_size; rewrite SF; reflexivity |].
  split; [reflexivity |]. split; [reflexivity |].
  split; [split; apply no_upscale; assumption |].
  split.
  - pose proof (@within_margin (cw - 20) w scale Bw M1 M3).
    pose proof (@within_margin (ch - 20) h scale Bh M2 M3). lia.
  - intros Lw Lh. apply aspect_within_rounding; try assumption.
    destruct (@fit_bounds (cw - 20) w Hw) as [_ [Fw _]].
    destruct (@fit_bounds (ch - 20) h Hh) as [_ [Fh _]].
    destruct (Fw ltac:(lia)) as [Pw _]. destruct (Fh ltac:(lia)) as [Ph _].
    fold scale_w in Pw. fold scale_h in Ph.
    destruct M4 as [E | [E | E]]; rewrite E; try assumption. reflexivity.
Qed.

(** C7 (amended).  For every image that fits the canvas less its 20-pixel
    margin in both dimensions, the size handed to [resize] is the image's
    own width and height: the preview is rendered at 1:1. *)
Theorem preview_one_to_one_within_margin (winfo : Z * Z) (w h : Z) :
  let canvas := canvas_dims winfo in
  (1 <= w < 2 ^ 53)%Z -> (1 <= h < 2 ^ 53)%Z ->
  (w <= fst canvas - 20)%Z -> (h <= snd canvas - 20)%Z ->
  preview_size canvas (w, h) = Ok (w, h).
Proof.
  intros canvas Hw Hh Fw Fh. destruct canvas as [cw ch]. cbn [fst snd] in *.
  unfold preview_size, scale_factor.
  rewrite !truediv_ok by lia. cbn [and_then].
  set (scale_w := fl (inject_Z (cw - 20) / inject_Z w)).
  set (scale_h := fl (inject_Z (ch - 20) / inject_Z h)).
  destruct (@fit_bounds (cw - 20) w ltac:(lia)) as [_ [_ Gw]].
  destruct (@fit_bounds (ch - 20) h ltac:(lia)) as [_ [_ Gh]].
  specialize (Gw Fw). specialize (Gh Fh). fold scale_w in Gw. fold scale_h in Gh.
  destruct (min3_spec scale_w scale_h 1%Q) as [_ [_ [M3 M4]]].
  assert (E : (min3 scale_w scale_h 1 == 1)%Q).
  { destruct M4 as [E | [E | E]]; rewrite E in *; try reflexivity.
    - apply Qle_antisym; assumption.
    - apply Qle_antisym; assumption. }
  assert (V : forall n, (1 <= n < 2 ^ 53)%Z ->
                int (mul_int_float n (min3 scale_w scale_h 1)) = n).
  { intros n Hn. unfold int. rewrite (mul_int_float_fl _ Hn).
    assert (F : fl (inject_Z n * min3 scale_w scale_h 1) = fl (inject_Z n)).
    { apply fl_eq. rewrite E. ring. }
    rewrite F, (trunc_eq (fl_int Hn)). apply trunc_Z. }
  rewrite (V w Hw), (V h Hh). reflexivity.
Qed.

End PreviewProperties.

(* ================================================================== *)
(** ** Scenarios on TinyPillow *)
(* ================================================================== *)

Section Scenarios.

Import TinyPillow TinyPillowFacts.
Open Scope string_scope.



(** C2 as stated fails: on the 1x600 picture the grayscale transform
    succeeds and is assigned, then [resize] refuses the 0x480 preview; the
    exception is raised inside the [try], reported, and the processed image
    is no longer the one from before. *)
Lemma exception_after_assignment_changes_processed :
  ~ (forall (P : Pillow) (f : filter_id) (s : App) (e : exn) (s1 : App),
       original_image s <> None ->
       filter_try (filter_expr f) (filter_name f) s = (Raise e, s1) ->
       processed_image (snd (apply_filter f s)) = processed_image s /\
       exists msg, dialogs (snd (apply_filter f s)) = showerror "Error" msg :: dialogs s).
Proof.
  intros H.
  set (r := filter_try (filter_expr BlackWhite) (filter_name BlackWhite) session_sliver).
  assert (E : r = (Raise (Exn "ValueError" "height and width must be > 0"), snd r))
    by (vm_compute; reflexivity).
  assert (N : original_image session_sliver <> None) by (vm_compute; discriminate).
  destruct (H tiny BlackWhite session_sliver _ _ N E) as [Hp _].
  vm_compute in Hp. discriminate Hp.
Qed.

(** C2 (amended) on the session that holds the palette picture: Blur
    raises in the transform and the processed image stays. *)
Lemma transform_failure_keeps_processed_witness :
  original_image session_icon = Some icon_obj /\
  filter_pipeline Blur icon = Raise (Exn "ValueError" "cannot filter palette images") /\
  processed_image (snd (apply_filter Blur session_icon)) = processed_image session_icon.
Proof.
  assert (H : original_image session_icon = Some icon_obj)
    by (vm_compute; reflexivity).
  assert (E : filter_pipeline Blur (val icon_obj)
              = Raise (Exn "ValueError" "cannot filter palette images"))
    by (vm_compute; reflexivity).
  split; [exact H |]. split; [exact E |].
  exact (proj1 (proj1 (transform_failure_keeps_processed Blur session_icon H) _ E)).
Defined.

(** C3, the failing run.  A session holds small.png; the user opens
    cut.jpg, whose header parses and whose pixel data is cut short.
    [Image.open] succeeds and is assigned to [self.original_image]; the
    [copy()] that follows decodes and raises.  The failure is reported, but
    the original image is now the undecodable one, next to the processed
    image and preview of the old one. *)
Theorem truncated_upload_replaces_original :
  let s := session_small in
  let s' := snd (upload_image "/pics/cut.jpg" s) in
  Image_open (disk s) "/pics/cut.jpg" = Ok cut /\
  img_copy cut = Raise (Exn "OSError" "image file is truncated") /\
  fst (upload_image "/pics/cut.jpg" s) = Ok tt /\
  dialogs s' = [showerror "Error" "Failed to load image: image file is truncated"] /\
  original_image s = Some {| oid := 0; val := small |} /\
  original_image s' = Some {| oid := 4; val := cut |} /\
  processed_image s' = processed_image s /\
  display_image s' = display_image s /\
  ~ derived s'.
Proof.
  cbv zeta. split_all; try (vm_compute; reflexivity).
  intros D. unfold derived in D.
  assert (Eo : original_image (snd (upload_image "/pics/cut.jpg" session_small))
               = Some {| oid := 4; val := cut |}) by (vm_compute; reflexivity).
  assert (Ep : processed_image (snd (upload_image "/pics/cut.jpg" session_small))
               = Some {| oid := 1; val := small |}) by (vm_compute; reflexivity).
  rewrite Eo, Ep in D. cbn [val] in D.
  destruct D as [D | [f D]].
  - vm_compute in D. discriminate D.
  - destruct f; vm_compute in D; discriminate D.
Qed.

(** C4 on the session that holds small.png. *)
Lemma cartoon_steps_in_order_witness :
  original_image session_small = Some small_obj /\
  cartoon_of small = cartoon_spec small.
Proof.
  assert (H : original_image session_small = Some small_obj)
    by (vm_compute; reflexivity).
  split; [exact H |].
  refine (proj1 (cartoon_steps_in_order session_small tiny_copy_is_identical
                   tiny_convert_to_own_mode_is_copy H _)).
  exists small. vm_compute. reflexivity.
Defined.



(** C6 for a 4000x3000 image on the default canvas. *)
Lemma preview_scale_is_min_fit_witness :
  (1 <= 4000)%Z /\ (1 <= 3000)%Z /\ (4000 * 3000 <= 2 ^ 50)%Z /\
  exists nw nh : Z,
    preview_size (canvas_dims (1, 1)%Z) (4000, 3000)%Z = Ok (nw, nh) /\
    (nw <= 4000 /\ nh <= 3000)%Z /\ (nw <= 800 /\ nh <= 500)%Z.
Proof.
  assert (H1 : (1 <= 4000)%Z) by lia.
  assert (H2 : (1 <= 3000)%Z) by lia.
  assert (H3 : (4000 * 3000 <= 2 ^ 50)%Z) by lia.
  split; [exact H1 |]. split; [exact H2 |]. split; [exact H3 |].
  destruct (preview_scale_is_min_fit (1, 1)%Z H1 H2 H3)
    as [sw [sh [sc [nw [nh [_ [_ [_ [_ [_ [E [_ [_ [U [C _]]]]]]]]]]]]]]].
  exists nw, nh. split; [exact E |]. split; [exact U | exact C].
Defined.

(** C7 as stated fails: on the default 800x500 canvas a 795x100 image is
    smaller than the canvas in both dimensions and is shrunk to 780x98. *)
Lemma smaller_than_canvas_is_still_shrunk :
  ~ (forall (winfo : Z * Z) (w h : Z),
       let canvas := canvas_dims winfo in
       (1 <= w < fst canvas)%Z -> (1 <= h < snd canvas)%Z ->
       preview_size canvas (w, h) = Ok (w, h)).
Proof.
  intros H.
  assert (E : preview_size (canvas_dims (1, 1)%Z) (795, 100)%Z = Ok (780, 98)%Z)
    by (vm_compute; reflexivity).
  specialize (H (1, 1)%Z 795%Z 100%Z). cbv zeta in H.
  rewrite E in H.
  assert (A : (1 <= 795 < fst (canvas_dims (1, 1)))%Z) by (cbn; lia).
  assert (B : (1 <= 100 < snd (canvas_dims (1, 1)))%Z) by (cbn; lia).
  specialize (H A B). discriminate H.
Qed.

(** C7 (amended) for a 100x100 image on the default canvas. *)
Lemma preview_one_to_one_within_margin_witness :
  (1 <= 100 < 2 ^ 53)%Z /\ (100 <= 800 - 20)%Z /\ (100 <= 500 - 20)%Z /\
  preview_size (canvas_dims (1, 1)%Z) (100, 100)%Z = Ok (100, 100)%Z.
Proof.
  assert (H1 : (1 <= 100 < 2 ^ 53)%Z) by lia.
  split; [exact H1 |]. split; [lia |]. split; [lia |].
  apply (preview_one_to_one_within_margin (1, 1)%Z H1 H1); cbn; lia.
Defined.

(** C8 for the grayscale handler on small.png. *)
Lemma grayscale_and_edges_have_equal_channels_witness :
  original_image session_small = Some small_obj /\
  filter_pipeline BlackWhite small = Ok small_gray /\
  exists p, processed_image (snd (apply_filter BlackWhite session_small)) = Some p /\
            Forall gray_pixel (img_data (val p)).
Proof.
  assert (H : original_image session_small = Some small_obj)
    by (vm_compute; reflexivity).
  assert (E : filter_pipeline BlackWhite (val small_obj) = Ok small_gray)
    by (vm_compute; reflexivity).
  split; [exact H |]. split; [exact E |].
  destruct (grayscale_and_edges_have_equal_channels session_small
              tiny_convert_sets_mode tiny_filter_keeps_mode tiny_L_to_RGB_is_gray
              (or_introl eq_refl) H E) as [p [Hp [_ [_ G]]]].
  exists p. split; [exact Hp | exact G].
Defined.

(** C10 for the cartoon handler on small.png. *)
Lemma filters_keep_size_witness :
  original_image session_small = Some small_obj /\
  exists v, filter_pipeline Cartoon small = Ok v /\
    exists p, processed_image (snd (apply_filter Cartoon session_small)) = Some p /\
              img_size (val p) = (2, 2)%Z.
Proof.
  assert (H : original_image session_small = Some small_obj)
    by (vm_compute; reflexivity).
  split; [exact H |].
  destruct (filter_pipeline (P := tiny) Cartoon (val small_obj)) as [v | e] eqn:E;
    [| vm_compute in E; discriminate E].
  exists v. split; [exact E |].
  destruct (filters_keep_size Cartoon session_small tiny_sizes_kept H E) as [p [Hp [_ S]]].
  exists p. split; [exact Hp | exact S].
Defined.

(** C9 as stated fails: the reset control is created without
    [state=tk.DISABLED] and is enabled before any image is loaded. *)
Lemma reset_is_enabled_when_empty :
  ~ (forall (P : Pillow) (d : fs),
       control_state UploadBtn (init d) = Some NORMAL /\
       control_state SaveBtn (init d) = Some DISABLED /\
       control_state ResetBtn (init d) = Some DISABLED /\
       forall f, control_state (FilterBtn f) (init d) = Some DISABLED).
Proof.
  intros H. destruct (H tiny files) as [_ [_ [R _]]].
  vm_compute in R. discriminate R.
Qed.

(** C9 (amended) at start-up and after loading small.png. *)
Lemma controls_gated_by_load_witness :
  original_image start = None /\
  control_state SaveBtn start = Some DISABLED /\
  control_state ResetBtn start = Some NORMAL /\
  fst (upload_image_try "/pics/small.png" start) = Ok tt /\
  forall c, control_state c (snd (upload_image_try "/pics/small.png" start)) = Some NORMAL.
Proof.
  pose proof (controls_gated_by_load files []) as [A B]. cbn [mainloop fold_left] in A, B.
  assert (N : original_image start = None) by reflexivity.
  destruct (A N) as [_ [Hr [Hs _]]].
  split; [exact N |]. split; [exact Hs |]. split; [exact Hr |].
  split; [vm_compute; reflexivity |].
  apply (B "/pics/small.png").
  vm_compute. reflexivity.
Defined.

End Scenarios.

(* ================================================================== *)
(** ** Further properties: file names *)
(* ================================================================== *)

Section FileNames.

Open Scope string_scope.

Lemma basename_from_spec (acc s : string) :
  basename_from acc s = if has_slash s then basename s else acc.
Proof.
  revert acc. induction s as [| c r IH]; intros acc; [reflexivity |].
  unfold basename. cbn [basename_from has_slash].
  destruct (Ascii.eqb c "/"); cbn [orb].
  - reflexivity.
  - rewrite (IH acc), (IH (String c r)). destruct (has_slash r); reflexivity.
Qed.

Lemma has_slash_app (a b : string) :
  has_slash (a ++ b) = has_slash a || has_slash b.
Proof.
  induction a as [| c r IH]; [reflexivity |].
  cbn. rewrite IH. apply orb_assoc.
Qed.

(** X1.  [os.path.basename] as the status line uses it: the name it returns
    contains no slash, and a path made of a directory, a slash and a name
    without slashes gives back that name. *)
Theorem basename_is_the_file_name (p : string) :
  has_slash (basename p) = false /\
  forall dir name, has_slash name = false ->
    p = dir ++ "/" ++ name -> basename p = name.
Proof.
  split.
  - induction p as [| c r IH]; [reflexivity |].
    unfold basename. cbn [basename_from].
    destruct (Ascii.eqb c "/") eqn:E; [exact IH |].
    rewrite basename_from_spec.
    destruct (has_slash r) eqn:Hr; [exact IH |].
    cbn [has_slash]. rewrite E, Hr. reflexivity.
  - intros dir name Hn ->. induction dir as [| c r IH].
    + unfold basename. cbn. rewrite basename_from_spec, Hn. reflexivity.
    + unfold basename. cbn [append basename_from].
      destruct (Ascii.eqb c "/"); [exact IH |].
      rewrite basename_from_spec, has_slash_app. cbn [append has_slash Ascii.eqb].
      rewrite orb_true_r. exact IH.
Qed.

End FileNames.

(* ================================================================== *)
(** ** Further properties: the preview size at the edges *)
(* ================================================================== *)

Section PreviewEdges.

Import Float64 Float64Facts PreviewFacts.
Open Scope Q_scope.

(** the fit factor from below, and against 1 *)
Lemma fit_lower a w :
  (1 <= w <= 2 ^ 50)%Z -> (0 < a)%Z ->
  let q := fl (inject_Z a / inject_Z w) in
  inject_Z a * (1 - u) <= inject_Z w * q /\ ((a < w)%Z -> q < 1).
Proof.
  intros [Hw Hw2] Ha q. pose proof (inject_Z_pos Hw) as W.
  pose proof (inject_Z_bound Hw2) as W2.
  change (inject_Z (2 ^ 50)) with (1125899906842624 # 1) in W2.
  set (r := inject_Z a / inject_Z w) in *.
  assert (R : inject_Z w * r == inject_Z a) by (unfold r; field; lra).
  assert (A : 1 <= inject_Z a) by (apply inject_Z_pos; lia).
  assert (Pr : 0 < r) by nra.
  pose proof (fl_err r) as E. rewrite (Qabs_pos r) in E by lra.
  rewrite u53_u in E. apply Qabs_Qle_condition in E. destruct E as [E1 E2].
  fold q in E1, E2. unfold u in *. split.
  - nra.
  - intros Lt.
    assert (A2 : inject_Z a + 1 <= inject_Z w).
    { change 1 with (inject_Z 1). rewrite <- inject_Z_plus. apply inject_Z_bound. lia. }
    assert (WQ : inject_Z w * q <= inject_Z a * (1 + (1 # 9007199254740992))) by nra.
    apply Qnot_le_lt. intros C.
    assert (inject_Z w <= inject_Z w * q) by nra. lra.
Qed.

(** X2.  When the canvas is no wider or no higher than the 20-pixel margin,
    nothing can be drawn, for every image with sides below 2^53: if the
    image has no columns or no rows the fit factor divides by zero;
    otherwise the scale factor is not positive and both sides of the size
    handed to [resize] are at most 0. *)
Theorem preview_empty_within_margin (winfo : Z * Z) (w h : Z) :
  let canvas := canvas_dims winfo in
  (0 <= w < 2 ^ 53)%Z -> (0 <= h < 2 ^ 53)%Z ->
  (fst canvas <= 20 \/ snd canvas <= 20)%Z ->
  ((w = 0 \/ h = 0)%Z ->
     scale_factor canvas (w, h) = Raise ZeroDivisionError /\
     preview_size canvas (w, h) = Raise ZeroDivisionError) /\
  ((1 <= w)%Z -> (1 <= h)%Z ->
     exists (scale : float) (nw nh : Z),
       scale_factor canvas (w, h) = Ok scale /\ scale <= 0 /\
       preview_size canvas (w, h) = Ok (nw, nh) /\ (nw <= 0 /\ nh <= 0)%Z).
Proof.
  intros canvas Hw Hh Hc. destruct canvas as [cw ch]. cbn [fst snd] in Hc. split.
  - intros Z0. unfold preview_size, scale_factor, truediv.
    destruct Z0 as [-> | ->]; [split; reflexivity |].
    destruct (Z.eqb w 0); split; reflexivity.
  - intros Pw Ph.
    assert (Bw : (1 <= w < 2 ^ 53)%Z) by lia.
    assert (Bh : (1 <= h < 2 ^ 53)%Z) by lia.
    unfold preview_size, scale_factor.
    rewrite !truediv_ok by lia. cbn [and_then].
    set (scale_w := fl (inject_Z (cw - 20) / inject_Z w)).
    set (scale_h := fl (inject_Z (ch - 20) / inject_Z h)).
    destruct (min3_spec scale_w scale_h 1) as [M1 [M2 _]].
    assert (S0 : min3 scale_w scale_h 1 <= 0).
    { destruct Hc as [Hc | Hc].
      - destruct (@fit_bounds (cw - 20) w ltac:(lia)) as [Fn _].
        specialize (Fn ltac:(lia)). fold scale_w in Fn. lra.
      - destruct (@fit_bounds (ch - 20) h ltac:(lia)) as [Fn _].
        specialize (Fn ltac:(lia)). fold scale_h in Fn. lra. }
    eexists. eexists. eexists. split; [reflexivity |]. split; [exact S0 |].
    split; [reflexivity |].
    destruct (product_bounds (min3 scale_w scale_h 1) Bw) as [Nw _].
    destruct (product_bounds (min3 scale_w scale_h 1) Bh) as [Nh _].
    split; apply trunc_nonpos; auto.
Qed.

(** X3.  When the canvas exceeds the margin and the image does not fit the
    canvas less the margin, the preview fills that box to within one pixel
    in one of the two dimensions (and, by C6, does not exceed it). *)
Theorem preview_fills_the_margin_box (winfo : Z * Z) (w h : Z) :
  let canvas := canvas_dims winfo in
  (1 <= w)%Z -> (1 <= h)%Z -> (w * h <= 2 ^ 50)%Z ->
  (20 < fst canvas)%Z -> (20 < snd canvas)%Z ->
  (fst canvas - 20 < w \/ snd canvas - 20 < h)%Z ->
  exists nw nh : Z,
    preview_size canvas (w, h) = Ok (nw, nh) /\
    (fst canvas - 21 <= nw \/ snd canvas - 21 <= nh)%Z.
Proof.
  intros canvas Hw Hh Hwh Cw Ch Big. destruct canvas as [cw ch]. cbn [fst snd] in *.
  assert (Bw : (1 <= w <= 2 ^ 50)%Z) by nia.
  assert (Bh : (1 <= h <= 2 ^ 50)%Z) by nia.
  unfold preview_size, scale_factor.
  rewrite !truediv_ok by lia. cbn [and_then].
  set (scale_w := fl (inject_Z (cw - 20) / inject_Z w)).
  set (scale_h := fl (inject_Z (ch - 20) / inject_Z h)).
  destruct (min3_spec scale_w scale_h 1) as [M1 [M2 [M3 M4]]].
  destruct (@fit_lower (cw - 20) w Bw ltac:(lia)) as [Lw Lw1].
  destruct (@fit_lower (ch - 20) h Bh ltac:(lia)) as [Lh Lh1].
  destruct (@fit_bounds (cw - 20) w Hw) as [_ [Fw _]].
  destruct (@fit_bounds (ch - 20) h Hh) as [_ [Fh _]].
  destruct (Fw ltac:(lia)) as [Pw _]. destruct (Fh ltac:(lia)) as [Ph _].
  fold scale_w in Lw, Lw1, Pw. fold scale_h in Lh, Lh1, Ph.
  eexists. eexists. split; [reflexivity |].
  assert (KEY : forall a n q, (1 <= n <= 2 ^ 50)%Z -> (1 <= a)%Z ->
            0 < q -> q <= 1 -> inject_Z a * (1 - u) <= inject_Z n * q ->
            (a - 1 <= int (mul_int_float n q))%Z).
  { intros a n q Bn Ha Pq Q1 L.
    assert (Hn : (1 <= n < 2 ^ 53)%Z) by lia.
    destruct (product_bounds q Hn) as [_ Pb]. destruct (Pb Pq) as [Xp [Xl _]].
    pose proof (inject_Z_pos (proj1 Bn)) as N1.
    pose proof (inject_Z_bound (proj2 Bn)) as N2.
    change (inject_Z (2 ^ 50)) with (1125899906842624 # 1) in N2.
    pose proof (inject_Z_pos Ha) as A1.
    unfold int. rewrite (trunc_pos (Qlt_le_weak _ _ Xp)).
    assert (G : inject_Z (a - 1) <= mul_int_float n q).
    { unfold Z.sub. rewrite inject_Z_plus, inject_Z_opp. change (inject_Z 1) with 1.
      assert (NQ : inject_Z n * q <= inject_Z n) by nra.
      unfold u in *. nra. }
    apply Qfloor_resp_le in G. rewrite Qfloor_Z in G. exact G. }
  destruct M4 as [E | [E | E]].
  - left. rewrite E. replace (cw - 21)%Z with (cw - 20 - 1)%Z by lia.
    apply KEY; try assumption; try lia. rewrite <- E. exact M3.
  - right. rewrite E. replace (ch - 21)%Z with (ch - 20 - 1)%Z by lia.
    apply KEY; try assumption; try lia. rewrite <- E. exact M3.
  - exfalso. rewrite E in M1, M2. destruct Big as [B | B].
    + specialize (Lw1 B). lra.
    + specialize (Lh1 B). lra.
Qed.

End PreviewEdges.

(* ================================================================== *)
(** ** Further properties: the handlers and the event loop *)
(* ================================================================== *)

Section Sessions.

Context {P : Pillow}.

Open Scope string_scope.

Arguments preview_size : simpl never.

(** X4.  In every reachable session no warning dialog has been shown, and
    the save control is enabled only when there is a processed image: the
    branch of [save_image] that warns "No processed image to save!" cannot
    be reached through the controls. *)
Theorem save_warning_is_unreachable (s : App) :
  reachable s ->
  forallb (fun d => negb (is_warning d)) (dialogs s) = true /\
  (control_state SaveBtn s = Some NORMAL -> processed_image s <> None).
Proof.
  intros R. destruct (reachable_wired R) as [_ [G1 G2]]. split; [exact G2 |].
  unfold control_state. cbn [widget option_map]. intros H. inversion H as [Hs].
  exact (G1 Hs).
Qed.

(** X5.  In every reachable session, an event other than a press on the
    upload control leaves the original image as it is, and an event other
    than a press on the save control leaves the files as they are. *)
Theorem only_upload_replaces_original_and_only_save_writes (s : App) (ev : event) :
  reachable s ->
  ((forall a, ev <> Press UploadBtn a) ->
     original_image (step ev s) = original_image s) /\
  ((forall a, ev <> Press SaveBtn a) -> disk (step ev s) = disk s).
Proof.
  intros R. destruct (reachable_wired R) as [W _].
  destruct ev as [ctl answer | w h]; [| split; reflexivity].
  rewrite (step_press_wired ctl answer W).
  destruct (control_state ctl s) as [[|] |]; try (split; reflexivity).
  destruct (settle_fields (run_command (command_of ctl) answer s)) as [So [_ [Sd _]]].
  rewrite So, Sd.
  destruct (run_command_effect ctl answer s) as [_ [Ko [Kd _]]].
  split; intros H; [apply Ko | apply Kd];
    destruct ctl as [| | | f]; try discriminate;
    try (destruct f; discriminate); exfalso; exact (H answer eq_refl).
Qed.

(** X6.  No event ever disables a control: one that is enabled stays
    enabled through every sequence of events. *)
Theorem controls_are_never_disabled (evs : list event) (s : App) (ctl : control) :
  control_state ctl s = Some NORMAL ->
  control_state ctl (mainloop evs s) = Some NORMAL.
Proof.
  revert s. induction evs as [| ev evs IH]; intros s H; [exact H |].
  change (mainloop (ev :: evs) s) with (mainloop evs (step ev s)).
  apply IH. unfold control_state in *.
  pose proof (step_widgets ev s ctl) as K.
  destruct (widget ctl s) as [b |]; [| discriminate H].
  destruct K as [K | K]; rewrite K; [exact H | reflexivity].
Qed.

(** X7.  [upload_image], [save_image] and the five filter handlers return
    normally from every session, whatever the library raises; no traceback
    is added. *)
Theorem handlers_with_try_return_normally (c : command) (answer : string) (s : App) :
  c <> cmd_reset_image ->
  fst (run_command c answer s) = Ok tt /\
  settle (run_command c answer s) = snd (run_command c answer s) /\
  tracebacks (snd (run_command c answer s)) = tracebacks s.
Proof.
  intros H. destruct (command_of_onto c) as [ctl ->].
  destruct (run_command_effect ctl answer s) as [_ [_ [_ [_ [_ [_ [Kr [Kt _]]]]]]]].
  specialize (Kr H).
  destruct (run_command (command_of ctl) answer s) as [r s']. cbn [fst snd] in *.
  subst r. split_all; auto.
Qed.

(** X8.  [reset_image] has no [try]: in a reachable session whose original
    cannot be copied, a press on Reset raises out of the handler; the
    session keeps its images and preview, and Tk records the traceback. *)
Theorem reset_failure_escapes (s : App) (o : obj image) (e : exn) (answer : string) :
  reachable s ->
  original_image s = Some o ->
  img_copy (val o) = Raise e ->
  reset_image s = (Raise e, s) /\
  step (Press ResetBtn answer) s = set_tracebacks (e :: tracebacks s) s.
Proof.
  intros R Ho Hc. destruct (reachable_wired R) as [W _].
  destruct (reachable_controls R) as [_ [Br _]].
  destruct (reset_spec s Ho) as [_ [_ Rm]]. rewrite Hc in Rm.
  split; [exact Rm |].
  rewrite (step_press_wired ResetBtn answer W).
  unfold control_state. cbn [widget option_map command_of run_command].
  rewrite Br, Rm. reflexivity.
Qed.

(** X9.  While no image has been opened, a press on any control but Upload
    leaves the session exactly as it is: Save and the filters are disabled,
    and Reset, which is enabled, returns at its guard. *)
Theorem empty_session_ignores_other_controls
    (d : fs) (evs : list event) (ctl : control) (answer : string) :
  let s := mainloop evs (init d) in
  original_image s = None ->
  ctl <> UploadBtn ->
  step (Press ctl answer) s = s.
Proof.
  intros s Hn Hc. destruct (mainloop_inv evs (init d)) as [_ I].
  specialize (I Hn). fold s in I. destruct I as [_ [_ [Es [Er Ef]]]].
  cbn [step]. destruct ctl as [| | | f]; cbn [widget].
  - exfalso. apply Hc. reflexivity.
  - rewrite Es. reflexivity.
  - rewrite Er. cbn -[reset_image]. rewrite (reset_empty s Hn). reflexivity.
  - rewrite Ef. destruct f; reflexivity.
Qed.

(** X10.  [display_image_on_canvas] never touches the two images, the
    controls or the files; when it returns, the canvas holds exactly one
    item, the new preview at the centre; when it raises, canvas and preview
    are the ones from before. *)
Theorem display_replaces_the_canvas_or_keeps_it (img : obj image) (s : App) :
  let r := display_image_on_canvas img s in
  original_image (snd r) = original_image s /\
  processed_image (snd r) = processed_image s /\
  same_controls s (snd r) /\
  disk (snd r) = disk s /\
  match fst r with
  | Ok _ => exists d, display_image (snd r) = Some d /\
                      canvas_items (snd r) = [centred s d]
  | Raise _ => display_image (snd r) = display_image s /\
               canvas_items (snd r) = canvas_items s
  end.
Proof.
  pose proof (display_cases img s) as FC. cbv zeta in *. destruct FC as [F C].
  unfold same_session in F. unfold same_controls.
  repeat match goal with H : _ /\ _ |- _ => destruct H end.
  split_all; auto.
Qed.

(** X11.  A filter handler on a session with an original ends in one of two
    ways: the status line names the filter, no dialog is added and the
    canvas holds exactly the new preview; or the error dialog is added and
    status line, preview and canvas stay as they were. *)
Theorem filter_status_and_preview_change_together
    (f : filter_id) (s : App) (o : obj image) :
  original_image s = Some o ->
  let s' := snd (apply_filter f s) in
  (status_label s' = {| label_text := "Filter applied: " ++ filter_name f;
                        label_fg := "blue" |} /\
   dialogs s' = dialogs s /\
   (exists v, filter_pipeline f (val o) = Ok v) /\
   exists d, display_image s' = Some d /\ canvas_items s' = [centred s d]) \/
  (status_label s' = status_label s /\
   (exists m, dialogs s' = showerror "Error" ("Failed to apply filter: " ++ m)
                           :: dialogs s) /\
   display_image s' = display_image s /\ canvas_items s' = canvas_items s).
Proof. intros Ho. exact (filter_preview_cases f s Ho). Qed.

(** X12.  Filters do not stack: after any filter [f], applying a filter [g]
    whose transform succeeds on the original gives the processed content
    that [g] alone gives. *)
Theorem filters_do_not_stack (f g : filter_id) (s : App) (o : obj image) (v : image) :
  original_image s = Some o ->
  filter_pipeline g (val o) = Ok v ->
  option_map (@val image)
    (processed_image (snd (apply_filter g (snd (apply_filter f s))))) = Some v /\
  option_map (@val image) (processed_image (snd (apply_filter g s))) = Some v.
Proof.
  intros Ho Hv.
  assert (ONE : forall t, original_image t = Some o ->
            option_map (@val image) (processed_image (snd (apply_filter g t))) = Some v).
  { intros t Ht.
    destruct (filter_handler_spec g t Ht)
      as [n [_ [_ [_ [_ [_ [_ [_ [_ [_ [_ [_ Hm]]]]]]]]]]]].
    rewrite Hv in Hm. destruct Hm as [Hp _]. rewrite Hp. reflexivity. }
  split; [| exact (ONE s Ho)].
  apply ONE.
  destruct (filter_handler_spec f s Ho) as [n [_ [_ [Eo _]]]]. exact Eo.
Qed.

(** X13.  [save_image] with a processed image: a cancelled dialog changes
    nothing; otherwise the files are the ones the library leaves, whether
    the save returns or raises (a save that raises after it has opened the
    target leaves the target emptied).  When the save returns, the success
    dialog names the path and the status line the file name; when it
    raises, the error dialog shows the message and the status line stays.
    The images are untouched in every case. *)
Theorem save_writes_the_processed_image (path : string) (s : App) (p : obj image) :
  processed_image s = Some p ->
  save_image "" s = (Ok tt, s) /\
  (truthy_str path = true ->
   match img_save (val p) path (disk s) with
   | (Ok _, d) =>
       save_image path s =
         (Ok tt,
          set_status_label {| label_text := "Image saved: " ++ basename path;
                              label_fg := "green" |}
            (set_dialogs (showinfo "Success"
                            ("Image saved successfully to:" ++ newline ++ path)
                          :: dialogs s)
               (set_disk d s)))
   | (Raise e, d) =>
       save_image path s =
         (Ok tt, set_dialogs (showerror "Error" ("Failed to save image: " ++ str e)
                              :: dialogs s) (set_disk d s))
   end) /\
  original_image (snd (save_image path s)) = original_image s /\
  processed_image (snd (save_image path s)) = Some p.
Proof.
  intros Hp. split; [rewrite (save_run "" s Hp); reflexivity |]. split.
  - intros Ht. rewrite (save_run path s Hp), Ht.
    destruct (img_save (val p) path (disk s)) as [[[] | e] d]; reflexivity.
  - rewrite (save_run path s Hp).
    destruct (truthy_str path); [| auto].
    destruct (img_save (val p) path (disk s)) as [[[] | e] d]; cbn; auto.
Qed.

(** X14.  Load, then save: when the [try] of [upload_image] has run to its
    end on a file that opens as [i], saving right away hands the encoder the
    content [i] of the original. *)
Theorem load_then_save_writes_the_original
    (path out : string) (s s1 : App) (i : image) (d : fs) :
  copy_is_identical ->
  upload_image_try path s = (Ok tt, s1) ->
  Image_open (disk s) path = Ok i ->
  truthy_str out = true ->
  img_save i out (disk s) = (Ok tt, d) ->
  disk (snd (save_image out s1)) = d /\
  original_image (snd (save_image out s1)) = original_image s1.
Proof.
  intros Hcopy Ht Ho Hout Hs.
  destruct (upload_try_ok path s Ht)
    as [i' [c [Ho' [Hc [Eo [Ep [Ed _]]]]]]].
  rewrite Ho in Ho'. inversion Ho'; subst i'.
  pose proof (Hcopy _ _ Hc) as Ec. subst c.
  rewrite (save_run out s1 Ep), Hout. cbn [val]. rewrite Ed, Hs. cbn. auto.
Qed.

(** X15.  When the [try] of [upload_image] runs to its end, the original is
    the opened image, the processed image is another object with the same
    content, the status line names the file, no dialog is added and the
    canvas holds exactly the preview. *)
Theorem successful_load (path : string) (s s' : App) :
  copy_is_identical ->
  upload_image_try path s = (Ok tt, s') ->
  exists i, Image_open (disk s) path = Ok i /\
    original_image s' = Some {| oid := next_oid s; val := i |} /\
    processed_image s' = Some {| oid := S (next_oid s); val := i |} /\
    derived s' /\
    status_label s' = {| label_text := "Image loaded: " ++ basename path;
                         label_fg := "green" |} /\
    dialogs s' = dialogs s /\
    exists d, display_image s' = Some d /\ canvas_items s' = [centred s d].
Proof.
  intros Hcopy Ht.
  destruct (upload_try_ok path s Ht)
    as [i [c [Ho [Hc [Eo [Ep [_ [Eg [El Ec]]]]]]]]].
  pose proof (Hcopy _ _ Hc) as E. subst c.
  exists i. split_all; auto.
  unfold derived. rewrite Eo, Ep. left. exact Hc.
Qed.

(** X16.  A file that cannot be opened, or a cancelled dialog, leaves the
    session as it was: nothing changes on cancel, and when [Image.open]
    raises only the error dialog with the message is added. *)
Theorem unopened_file_leaves_the_session (path : string) (s : App) (e : exn) :
  upload_image "" s = (Ok tt, s) /\
  (truthy_str path = true ->
   Image_open (disk s) path = Raise e ->
   upload_image path s =
     (Ok tt, set_dialogs (showerror "Error" ("Failed to load image: " ++ str e)
                          :: dialogs s) s)).
Proof.
  split; [reflexivity |]. intros Hp Ho. exact (upload_open_failure path s Hp Ho).
Qed.

(** X17.  An image without columns or without rows cannot be displayed: the
    fit factor divides by the side, ZeroDivisionError is raised before
    anything is drawn, and the session is unchanged. *)
Theorem zero_sized_image_cannot_be_displayed (img : obj image) (s : App) :
  fst (img_size (val img)) = 0%Z \/ snd (img_size (val img)) = 0%Z ->
  display_image_on_canvas img s = (Raise ZeroDivisionError, s).
Proof.
  intros H.
  assert (E : preview_size (canvas_dims (canvas_winfo s)) (img_size (val img))
              = Raise ZeroDivisionError).
  { destruct (img_size (val img)) as [w h]. cbn [fst snd] in H.
    unfold preview_size, scale_factor.
    destruct (canvas_dims (canvas_winfo s)) as [cw ch].
    unfold truediv. destruct H as [-> | ->].
    - reflexivity.
    - destruct (Z.eqb w 0); reflexivity. }
  unfold display_image_on_canvas. run_more. cbn. rewrite E. reflexivity.
Qed.

End Sessions.

(* ================================================================== *)
(** ** Further properties: create_widgets *)
(* ================================================================== *)

Section Widgets.

Lemma add_filter_buttons_from (l : list (string * command)) (acc : list Button) :
  fold_left add_filter_button l (Some acc) =
  Some (acc ++ map (fun f => tk_Button (fst f) (snd f) (Some DISABLED)) l)%list.
Proof.
  revert acc. induction l as [| f l IH]; intros acc; cbn [fold_left map].
  - rewrite app_nil_r. reflexivity.
  - unfold add_filter_button at 2. rewrite IH, <- app_assoc. reflexivity.
Qed.

(** X18.  The loop of [create_widgets] over any list of filters makes one
    disabled button per filter, in the order of the list, each with the
    filter's name and handler; with no filter the attribute
    [filter_buttons] is never created. *)
Theorem one_disabled_button_per_filter (l : list (string * command)) :
  fold_left add_filter_button l None =
  match l with
  | [] => None
  | _ => Some (map (fun f => tk_Button (fst f) (snd f) (Some DISABLED)) l)
  end.
Proof.
  destruct l as [| f l]; [reflexivity |].
  cbn [fold_left]. unfold add_filter_button at 2.
  rewrite add_filter_buttons_from. reflexivity.
Qed.

End Widgets.

(* ================================================================== *)
(** ** The further properties on TinyPillow sessions *)
(* ================================================================== *)

Section MoreScenarios.

Import TinyPillow TinyPillowFacts.
Open Scope string_scope.

(** X1 on the path of small.png. *)
Lemma basename_is_the_file_name_witness :
  has_slash "small.png" = false /\
  basename "/pics/small.png" = "small.png".
Proof.
  assert (H : has_slash "small.png" = false) by reflexivity.
  split; [exact H |].
  exact (proj2 (basename_is_the_file_name "/pics/small.png") "/pics" "small.png"
           H eq_refl).
Defined.

(** X2 for a 100x80 image on a canvas 20 wide. *)
Lemma preview_empty_within_margin_witness :
  (fst (canvas_dims (20, 300)) <= 20)%Z /\
  exists (scale : float) (nw nh : Z),
    scale_factor (canvas_dims (20, 300)%Z) (100, 80)%Z = Ok scale /\
    (scale <= 0)%Q /\
    preview_size (canvas_dims (20, 300)%Z) (100, 80)%Z = Ok (nw, nh) /\
    (nw <= 0 /\ nh <= 0)%Z.
Proof.
  assert (H1 : (0 <= 100 < 2 ^ 53)%Z) by lia.
  assert (H2 : (0 <= 80 < 2 ^ 53)%Z) by lia.
  assert (H3 : (fst (canvas_dims (20, 300)) <= 20)%Z) by (cbn; lia).
  assert (P1 : (1 <= 100)%Z) by lia.
  assert (P2 : (1 <= 80)%Z) by lia.
  split; [exact H3 |].
  exact (proj2 (preview_empty_within_margin (20, 300)%Z H1 H2 (or_introl H3)) P1 P2).
Defined.

(** X3 for a 4000x3000 image on the default canvas. *)
Lemma preview_fills_the_margin_box_witness :
  (800 - 20 < 4000)%Z /\
  exists nw nh : Z,
    preview_size (canvas_dims (1, 1)%Z) (4000, 3000)%Z = Ok (nw, nh) /\
    (fst (canvas_dims (1, 1)) - 21 <= nw \/ snd (canvas_dims (1, 1)) - 21 <= nh)%Z.
Proof.
  assert (H1 : (1 <= 4000)%Z) by lia.
  assert (H2 : (1 <= 3000)%Z) by lia.
  assert (H3 : (4000 * 3000 <= 2 ^ 50)%Z) by lia.
  assert (H4 : (20 < fst (canvas_dims (1, 1)))%Z) by (cbn; lia).
  assert (H5 : (20 < snd (canvas_dims (1, 1)))%Z) by (cbn; lia).
  assert (H6 : (fst (canvas_dims (1, 1)) - 20 < 4000)%Z) by (cbn; lia).
  split; [lia |].
  exact (preview_fills_the_margin_box (1, 1)%Z H1 H2 H3 H4 H5 (or_introl H6)).
Defined.

Lemma session_cut_reachable : reachable session_cut.
Proof.
  exists files,
    [Press UploadBtn "/pics/small.png"; Press UploadBtn "/pics/cut.jpg"].
  reflexivity.
Qed.

Lemma session_small_reachable : reachable session_small.
Proof. exists files, [Press UploadBtn "/pics/small.png"]. reflexivity. Qed.

(** X4 on the session that holds small.png. *)
Lemma save_warning_is_unreachable_witness :
  reachable session_small /\
  forallb (fun d => negb (is_warning d)) (dialogs session_small) = true.
Proof.
  split; [exact session_small_reachable |].
  exact (proj1 (save_warning_is_unreachable session_small_reachable)).
Defined.

(** X5 for a press on Blur in the session that holds small.png. *)
Lemma only_upload_replaces_original_and_only_save_writes_witness :
  reachable session_small /\
  original_image (step (Press (FilterBtn Blur) "") session_small)
    = original_image session_small /\
  disk (step (Press (FilterBtn Blur) "") session_small) = disk session_small.
Proof.
  split; [exact session_small_reachable |].
  destruct (only_upload_replaces_original_and_only_save_writes
              (Press (FilterBtn Blur) "") session_small_reachable) as [A B].
  split; [apply A | apply B]; intros a H; discriminate H.
Defined.

(** X6: the save control, enabled by loading small.png, after a failed load
    and a reset. *)
Lemma controls_are_never_disabled_witness :
  control_state SaveBtn session_small = Some NORMAL /\
  control_state SaveBtn
    (mainloop [Press UploadBtn "/pics/notes.png"; Press ResetBtn ""] session_small)
    = Some NORMAL.
Proof.
  assert (H : control_state SaveBtn session_small = Some NORMAL)
    by (vm_compute; reflexivity).
  split; [exact H |].
  exact (controls_are_never_disabled
           [Press UploadBtn "/pics/notes.png"; Press ResetBtn ""] session_small SaveBtn H).
Defined.

(** X7 for Blur on the palette picture, whose transform raises. *)
Lemma handlers_with_try_return_normally_witness :
  cmd_apply_blur <> cmd_reset_image /\
  fst (run_command cmd_apply_blur "" session_icon) = Ok tt.
Proof.
  assert (H : cmd_apply_blur <> cmd_reset_image) by discriminate.
  split; [exact H |].
  exact (proj1 (handlers_with_try_return_normally "" session_icon H)).
Defined.

(** X8 on the session whose original is the truncated picture. *)
Lemma reset_failure_escapes_witness :
  reachable session_cut /\
  original_image session_cut = Some {| oid := 4; val := cut |} /\
  img_copy cut = Raise (Exn "OSError" "image file is truncated") /\
  reset_image session_cut = (Raise (Exn "OSError" "image file is truncated"), session_cut).
Proof.
  assert (Ho : original_image session_cut = Some {| oid := 4; val := cut |})
    by (vm_compute; reflexivity).
  assert (Hc : img_copy (val {| oid := 4; val := cut |})
               = Raise (Exn "OSError" "image file is truncated"))
    by (vm_compute; reflexivity).
  split; [exact session_cut_reachable |]. split; [exact Ho |]. split; [exact Hc |].
  exact (proj1 (reset_failure_escapes "" session_cut_reachable Ho Hc)).
Defined.

(** X9: Reset and Save right after start-up. *)
Lemma empty_session_ignores_other_controls_witness :
  original_image start = None /\
  step (Press ResetBtn "") start = start /\
  step (Press SaveBtn "out.png") start = start.
Proof.
  assert (H : original_image (mainloop [] (init files)) = None) by reflexivity.
  split; [exact H |]. split.
  - apply (empty_session_ignores_other_controls (P := tiny) files [] (ctl := ResetBtn) "" H). discriminate.
  - apply (empty_session_ignores_other_controls (P := tiny) files [] (ctl := SaveBtn) "out.png" H).
    discriminate.
Defined.

(** X11 for Sharpen on small.png. *)
Lemma filter_status_and_preview_change_together_witness :
  original_image session_small = Some small_obj /\
  status_label (snd (apply_filter Sharpen session_small))
    = {| label_text := "Filter applied: Sharpen"; label_fg := "blue" |}.
Proof.
  assert (H : original_image session_small = Some small_obj)
    by (vm_compute; reflexivity).
  split; [exact H |].
  destruct (filter_status_and_preview_change_together Sharpen session_small H)
    as [[A _] | [_ [[m D] _]]].
  - exact A.
  - vm_compute in D. discriminate D.
Defined.

(** X12: grayscale after cartoon on small.png. *)
Lemma filters_do_not_stack_witness :
  original_image session_small = Some small_obj /\
  filter_pipeline BlackWhite small = Ok small_gray /\
  option_map (@val timage)
    (processed_image
       (snd (apply_filter BlackWhite (snd (apply_filter Cartoon session_small)))))
    = Some small_gray.
Proof.
  assert (H : original_image session_small = Some small_obj)
    by (vm_compute; reflexivity).
  assert (E : filter_pipeline BlackWhite (val small_obj) = Ok small_gray)
    by (vm_compute; reflexivity).
  split; [exact H |]. split; [exact E |].
  exact (proj1 (filters_do_not_stack Cartoon BlackWhite session_small H E)).
Defined.

(** X13 on the session that holds the palette picture, saved over
    cut.jpg: the JPEG encoder refuses the mode after the target has been
    opened for writing, and the file that was there is left empty. *)
Lemma save_writes_the_processed_image_witness :
  processed_image session_icon = Some {| oid := 1; val := icon |} /\
  save_image "" session_icon = (Ok tt, session_icon) /\
  lookup "/pics/cut.jpg" (disk session_icon) = Some (ImageFile cut) /\
  lookup "/pics/cut.jpg" (disk (snd (save_image "/pics/cut.jpg" session_icon)))
    = Some NotAnImage.
Proof.
  assert (H : processed_image session_icon = Some {| oid := 1; val := icon |})
    by (vm_compute; reflexivity).
  split; [exact H |].
  destruct (save_writes_the_processed_image "/pics/cut.jpg" session_icon H)
    as [A [B _]].
  split; [exact A |]. split; [vm_compute; reflexivity |].
  specialize (B eq_refl).
  match type of B with
  | context [img_save ?i ?path ?d] =>
      assert (S : img_save i path d
                  = (Raise (Exn "OSError" "cannot write mode as JPEG"),
                     ("/pics/cut.jpg", NotAnImage) :: files))
        by (vm_compute; reflexivity)
  end.
  rewrite S in B. rewrite B. reflexivity.
Defined.

Lemma upload_small_runs :
  upload_image_try "/pics/small.png" start = (Ok tt, session_small).
Proof. vm_compute. reflexivity. Qed.

(** X14: small.png loaded and saved at once. *)
Lemma load_then_save_writes_the_original_witness :
  upload_image_try "/pics/small.png" start = (Ok tt, session_small) /\
  disk (snd (save_image "/out/a.png" session_small))
    = ("/out/a.png", ImageFile small) :: files.
Proof.
  split; [exact upload_small_runs |].
  refine (proj1 (load_then_save_writes_the_original "/pics/small.png" "/out/a.png"
                   start (i := small)
                   (d := ("/out/a.png", ImageFile small) :: files)
                   tiny_copy_is_identical upload_small_runs _ eq_refl _));
    reflexivity.
Defined.

(** X15 for small.png. *)
Lemma successful_load_witness :
  upload_image_try "/pics/small.png" start = (Ok tt, session_small) /\
  status_label session_small
    = {| label_text := "Image loaded: small.png"; label_fg := "green" |}.
Proof.
  split; [exact upload_small_runs |].
  destruct (successful_load "/pics/small.png" start tiny_copy_is_identical
              upload_small_runs) as [i [_ [_ [_ [_ [L _]]]]]].
  exact L.
Defined.

(** X16 for the text file renamed to .png. *)
Lemma unopened_file_leaves_the_session_witness :
  Image_open (disk session_small) "/pics/notes.png"
    = Raise (Exn "UnidentifiedImageError" "cannot identify image file") /\
  upload_image "/pics/notes.png" session_small =
    (Ok tt,
     set_dialogs
       (showerror "Error"
          ("Failed to load image: "
           ++ str (Exn "UnidentifiedImageError" "cannot identify image file"))
        :: dialogs session_small) session_small).
Proof.
  assert (H : Image_open (disk session_small) "/pics/notes.png"
              = Raise (Exn "UnidentifiedImageError" "cannot identify image file"))
    by (vm_compute; reflexivity).
  split; [exact H |].
  exact (proj2 (unopened_file_leaves_the_session "/pics/notes.png" session_small
                  (Exn "UnidentifiedImageError" "cannot identify image file"))
           eq_refl H).
Defined.

(** X17 for an image 0 wide. *)
Lemma zero_sized_image_cannot_be_displayed_witness :
  fst (img_size (val hollow)) = 0%Z /\
  display_image_on_canvas hollow start = (Raise ZeroDivisionError, start).
Proof.
  assert (H : fst (img_size (val hollow)) = 0%Z) by reflexivity.
  split; [exact H |].
  exact (zero_sized_image_cannot_be_displayed hollow start (or_introl H)).
Defined.

End MoreScenarios.
